(** * Privilege-bounded execution of the secrets backend (Windows)

    A shallow embedding of [pkg/secrets] [exec_windows.go]: the command
    line builder, the registry credential lookup, the pipe relay and the
    execution controller [execCommand], together with the properties the
    specification states about them.

    Go strings are byte sequences and are embedded as [string]; Go errors
    are embedded as the inductive type [error]; the operating system,
    which the Go code reaches through [os], [syscall] and [registry], is
    an explicit state [OS] driven by the outcomes recorded in a [World]. *)

From Stdlib Require Import Ascii String.
From stdpp Require Import base numbers list strings gmap.

(** ** Bytes and strings *)

Module Char.
Definition dquote : ascii := "034"%char.
Definition backslash : ascii := "092"%char.
Definition space : ascii := "032"%char.
Definition tab : ascii := "009"%char.
Definition nul : ascii := "000"%char.
Definition lf : ascii := "010"%char.

Definition eq (c d : ascii) : bool := Ascii.eqb c d.

(** [' '] or ['\t']: the two separators of a Windows command line. *)
Definition is_blank (c : ascii) : bool := eq c space || eq c tab.
End Char.

(** [len(s)] *)
Abbreviation len := String.length.

(** A string of one byte. *)
Definition str1 (c : ascii) : string := String c "".

(** [n] backslashes. *)
Fixpoint bs_rep (n : nat) : string :=
  match n with
  | O => ""
  | S n' => String Char.backslash (bs_rep n')
  end.

(** Does the byte [c] occur in [s]? *)
Fixpoint contains (c : ascii) (s : string) : bool :=
  match s with
  | "" => false
  | String d s' => Char.eq d c || contains c s'
  end.

(** Does [s] hold a space or a tab? *)
Fixpoint has_blank (s : string) : bool :=
  match s with
  | "" => false
  | String c s' => Char.is_blank c || has_blank s'
  end.

(** ** [syscall.EscapeArg] (Go standard library, Windows)

    The function [makeCmdLine] calls on every argument.  The first loop
    counts the bytes to add and looks for a blank; the second loop copies
    [s], doubling the backslashes in front of a double quote and escaping
    the quote; the result is wrapped in quotes when [s] holds a blank. *)

Fixpoint escape_scan (s : string) (n : nat) (hasSpace : bool) : nat * bool :=
  match s with
  | "" => (n, hasSpace)
  | String c s' =>
      if Char.eq c Char.dquote || Char.eq c Char.backslash
      then escape_scan s' (S n) hasSpace
      else if Char.is_blank c
      then escape_scan s' n true
      else escape_scan s' n hasSpace
  end.

Fixpoint escape_body (s : string) (slashes : nat) (hasSpace : bool) : string :=
  match s with
  | "" =>
      if hasSpace then bs_rep slashes +:+ str1 Char.dquote else ""
  | String c s' =>
      if Char.eq c Char.backslash
      then String c (escape_body s' (S slashes) hasSpace)
      else if Char.eq c Char.dquote
      then bs_rep slashes +:+
           String Char.backslash (String c (escape_body s' 0 hasSpace))
      else String c (escape_body s' 0 hasSpace)
  end.

Definition EscapeArg (s : string) : string :=
  if Nat.eqb (len s) 0 then String Char.dquote (str1 Char.dquote)
  else
    let '(n, hasSpace) := escape_scan s (len s) false in
    let n := if hasSpace then n + 2 else n in
    if Nat.eqb n (len s) then s
    else if hasSpace
         then String Char.dquote (escape_body s 0 true)
         else escape_body s 0 false.

(** ** [makeCmdLine] (part_000, lines 110-115)

<<
    for _, v := range args { cmd += " " + syscall.EscapeArg(v) }
    return cmd
>> *)

Definition makeCmdLine (cmd : string) (args : list string) : string :=
  fold_left (fun cmd v => cmd +:+ " " +:+ EscapeArg v) args cmd.

(** The escaped arguments, each prefixed by a single space. *)
Definition escaped_args (args : list string) : string :=
  foldr (fun v acc => " " +:+ EscapeArg v +:+ acc) "" args.

(** ** The Windows command-line convention

    The decoder a spawned program applies to the flat string it receives:
    blanks separate arguments outside quotes; [2n] backslashes followed by
    a quote give [n] backslashes and toggle quoting; [2n+1] backslashes
    followed by a quote give [n] backslashes and a literal quote;
    backslashes not followed by a quote are literal.  This is the reading
    of [os.commandLineToArgv] / [readNextArg], which Go programs use to
    build [os.Args] on Windows. *)

Definition appendBSBytes (b : string) (n : nat) : string := b +:+ bs_rep n.

Fixpoint readNextArg_loop (cmd : string) (b : string) (inquote : bool)
    (nslash : nat) : string * string :=
  match cmd with
  | "" => (appendBSBytes b nslash, "")
  | String c rest =>
      if Char.is_blank c then
        if negb inquote then (appendBSBytes b nslash, rest)
        else readNextArg_loop rest (appendBSBytes b nslash +:+ str1 c) inquote 0
      else if Char.eq c Char.dquote then
        let b := appendBSBytes b (nslash / 2) in
        if Nat.even nslash then
          match rest with
          | String c1 rest1 =>
              if inquote && Char.eq c1 Char.dquote
              then readNextArg_loop rest1 (b +:+ str1 c) (negb inquote) 0
              else readNextArg_loop rest b (negb inquote) 0
          | "" => readNextArg_loop rest b (negb inquote) 0
          end
        else readNextArg_loop rest (b +:+ str1 c) inquote 0
      else if Char.eq c Char.backslash then
        readNextArg_loop rest b inquote (S nslash)
      else readNextArg_loop rest (appendBSBytes b nslash +:+ str1 c) inquote 0
  end.

Definition readNextArg (cmd : string) : string * string :=
  readNextArg_loop cmd "" false 0.

(** The outer loop of [commandLineToArgv]; every turn consumes at least
    one byte, so [S (len cmd)] turns always suffice ([None] would mean the
    bound was too small). *)
Fixpoint commandLineToArgv_loop (turns : nat) (cmd : string)
    : option (list string) :=
  match cmd with
  | "" => Some []
  | String c rest =>
      match turns with
      | O => None
      | S turns' =>
          if Char.is_blank c then commandLineToArgv_loop turns' rest
          else
            let '(arg, cmd') := readNextArg cmd in
            cons arg <$> commandLineToArgv_loop turns' cmd'
      end
  end.

Definition commandLineToArgv (cmd : string) : option (list string) :=
  commandLineToArgv_loop (S (len cmd)) cmd.


(** ** Go errors

    An [error] value is a [syscall.Errno], an [*os.PathError] or a value
    made by [fmt.Errorf] / [errors.New]. *)

Inductive error : Type :=
  | Errno (code : N)
  | EINVAL
  | PathError (Op Path : string) (Err : error)
  | errorString (s : string).

Inductive result (A : Type) : Type :=
  | Ok (a : A)
  | Err (e : error).
Arguments Ok {A} a.
Arguments Err {A} e.

(** [e == syscall.Errno(code)] *)
Definition is_errno (e : error) (code : N) : bool :=
  match e with
  | Errno c => N.eqb c code
  | _ => false
  end.

Definition ERROR_FILE_NOT_FOUND : N := 2.
Definition ERROR_BROKEN_PIPE : N := 109.
Definition ERROR_NO_DATA : N := 232. (* 0xe8 *)

(** [registry.ErrNotExist = syscall.ERROR_FILE_NOT_FOUND] *)
Definition ErrNotExist : error := Errno ERROR_FILE_NOT_FOUND.
Definition ErrUnexpectedType : error := errorString "unexpected key value type".
Definition ErrClosed : error := errorString "file already closed".
Definition ErrShortWrite : error := errorString "short write".

(** ** Package configuration

    The variables [secretBackendCommand], [secretBackendArguments],
    [secretBackendTimeout] and [secretBackendOutputMaxSize] are set by
    the configuration loader, outside this file. *)

(** What a bounded buffer answers to a write that does not fit. *)
Inductive Overflow : Type :=
  | Dropped
  | Refused (e : error).

Record Config : Type := {
  secretBackendCommand : string;
  secretBackendArguments : list string;
  secretBackendTimeout : Z;
  secretBackendOutputMaxSize : nat;
  overflow : Overflow
}.

(** ** The outside world

    Everything the operating system decides during one call. *)

Inductive RegValue : Type :=
  | REG_SZ (s : string)
  | REG_OTHER (valtype : N).

Inductive WaitResult : Type :=
  | Exited (code : N)
  | WaitFailed (e : error).

(** The order in which the three relay tasks deliver on [errch]. *)
Inductive Arrival : Type := A012 | A021 | A102 | A120 | A201 | A210.

Record World : Type := {
  (** text of [syscall.Errno.Error] *)
  errno_text : N -> string;
  (** outcome of [os.Pipe] for the pipe of the child's standard stream [i] *)
  pipe_fault : nat -> option error;
  (** outcome of [DuplicateHandle] on [attr.Files[i]] *)
  dup_fault : nat -> option error;
  (** [HKLM]: key path to the values under it *)
  registry_store : gmap string (gmap string RegValue);
  (** a failure of [registry.OpenKey] other than absence *)
  registry_fault : option error;
  (** [res] and [err] of [procCreateProcessWithLogonW.Call] *)
  create_res : N;
  create_err : error;
  create_pid : N;
  (** outcome of [os.FindProcess] *)
  find_fault : option error;
  (** [ctx.Done()] fires while [process.Wait()] is blocked *)
  deadline_before_exit : bool;
  (** the deadline passes between the return of [Wait] and [ctx.Err()] *)
  deadline_before_check : bool;
  (** what [process.Wait()] returns; the argument tells whether [Kill] ran *)
  wait_result : bool -> WaitResult;
  (** result of [io.Copy(pw, r)] on the stdin pipe *)
  stdin_copy : string -> option error;
  (** outcome of closing an open handle *)
  close_fault : N -> option error;
  (** successive reads of the child's stdout and stderr pipes and how
      each stream ends ([None]: end of file) *)
  stdout_reads : list string;
  stdout_end : option error;
  stderr_reads : list string;
  stderr_end : option error;
  arrival : Arrival
}.

(** ** Operating-system state *)

Record File : Type := { Fd : N; Name : string }.

(** One call of [CreateProcessWithLogonW]. *)
Record CreateCall : Type := {
  lpUsername : string;
  lpDomain : string;
  lpPassword : string;
  lpApplicationName : string;
  lpCommandLine : string;
  hStdInput : N;
  hStdOutput : N;
  hStdError : N;
  call_res : N
}.

Record OS : Type := {
  (** handles of the [*os.File] values that are open *)
  open_files : gset N;
  (** handles made by [DuplicateHandle] and not yet closed *)
  dup_handles : gset N;
  (** the [bytes.Buffer] values, by address *)
  buffers : list string;
  (** the calls of the process-creation primitive, oldest first *)
  create_calls : list CreateCall;
  (** the process ids [Kill] was called on *)
  kill_calls : list N
}.

Definition set_open_files (f : gset N -> gset N) (os : OS) : OS :=
  {| open_files := f (open_files os); dup_handles := dup_handles os;
     buffers := buffers os;
     create_calls := create_calls os; kill_calls := kill_calls os |}.
Definition set_dup_handles (f : gset N -> gset N) (os : OS) : OS :=
  {| open_files := open_files os; dup_handles := f (dup_handles os);
     buffers := buffers os;
     create_calls := create_calls os; kill_calls := kill_calls os |}.
Definition set_buffers (f : list string -> list string) (os : OS) : OS :=
  {| open_files := open_files os; dup_handles := dup_handles os;
     buffers := f (buffers os);
     create_calls := create_calls os; kill_calls := kill_calls os |}.
Definition set_create_calls (f : list CreateCall -> list CreateCall) (os : OS) : OS :=
  {| open_files := open_files os; dup_handles := dup_handles os;
     buffers := buffers os;
     create_calls := f (create_calls os); kill_calls := kill_calls os |}.
Definition set_kill_calls (f : list N -> list N) (os : OS) : OS :=
  {| open_files := open_files os; dup_handles := dup_handles os;
     buffers := buffers os;
     create_calls := create_calls os; kill_calls := f (kill_calls os) |}.

(** The processes that were really created. *)
Definition spawned (os : OS) : list CreateCall :=
  filter (fun c => call_res c ≠ 0%N) (create_calls os).

(** A handle value the system has not handed out; never [0]. *)
Definition fresh_handle (os : OS) : N :=
  fresh ({[0%N]} ∪ open_files os ∪ dup_handles os).

(** ** The state monad of the embedding *)

Definition M (A : Type) : Type := OS -> A * OS.

#[export] Instance M_ret : MRet M := fun A (a : A) os => (a, os).
#[export] Instance M_bind : MBind M :=
  fun A B (f : A -> M B) (m : M A) os => let '(a, os') := m os in f a os'.

Definition modify (f : OS -> OS) : M unit := fun os => (tt, f os).
Definition gets {A} (f : OS -> A) : M A := fun os => (f os, os).

(** The first [n] bytes of [s] (all of [s] when it is shorter). *)
Fixpoint first_bytes (n : nat) (s : string) : string :=
  match n, s with
  | S n', String c s' => String c (first_bytes n' s')
  | _, _ => ""
  end.

(** The fixed account and the registry path of its password
    (part_000, lines 30-34). *)
Definition username : string := "datadog_secretuser".
Definition passwordRegistryPath : string :=
  "SOFTWARE\Datadog\Datadog Agent\secrets".

(** The relay bookkeeping of [execCommand]: the three slices that
    [setInputPipe] and [setOutputPipe] append to through pointers.  A
    scheduled closure is a computation of the monad. *)
Record Relay : Type := {
  goroutine : list (M (option error));
  closeAfterStart : list File;
  closeAfterWait : list File
}.

(** [limitBuffer{buf: &bytes.Buffer{}, max: ...}]; the fields are [buf]
    and [max] in the source. *)
Record limitBuffer : Type := { lb_buf : nat; lb_max : nat }.

(** [*os.Process] *)
Record Process : Type := { Pid : N }.

(** [syscall.ProcAttr], of which only [Files] is set. *)
Record ProcAttr : Type := { Files : list N }.

(** Position of the results of tasks 0, 1, 2 on [errch]. *)
Definition arrival_order (a : Arrival) : list nat :=
  match a with
  | A012 => [0; 1; 2] | A021 => [0; 2; 1]
  | A102 => [1; 0; 2] | A120 => [1; 2; 0]
  | A201 => [2; 0; 1] | A210 => [2; 1; 0]
  end.

Definition arrive {A} (a : Arrival) (d : A) (rs : list A) : list A :=
  (fun i => default d (rs !! i)) <$> arrival_order a.

(** Lines 278-283: keep the first error received.
<<
    if err := <-errch; err != nil && copyError == nil { copyError = err }
>> *)
Definition keep_first (copyError err : option error) : option error :=
  match err, copyError with
  | Some e, None => Some e
  | _, _ => copyError
  end.

Definition drain_errch (received : list (option error)) : option error :=
  fold_left keep_first received None.

(** [skipStdinCopyError] (part_000, lines 60-69). *)
Definition skipStdinCopyError (err : option error) : bool :=
  match err with
  | Some (PathError op path e) =>
      String.eqb op "write" && String.eqb path "|1" &&
      (is_errno e ERROR_BROKEN_PIPE || is_errno e ERROR_NO_DATA)
  | _ => false
  end.

(** [syscall.UTF16PtrFromString]: fails with [EINVAL] on a NUL byte; the
    pointer is embedded as the string it points to. *)
Definition UTF16PtrFromString (s : string) : result string :=
  if contains Char.nul s then Err EINVAL else Ok s.

Section Exec.
Variable cfg : Config.
Variable w : World.

(** [err.Error()] *)
Fixpoint Error (e : error) : string :=
  match e with
  | Errno c => errno_text w c
  | EINVAL => "invalid argument"
  | PathError op path err => op +:+ " " +:+ path +:+ ": " +:+ Error err
  | errorString s => s
  end.

(** [fmt.Errorf(pre + "%s" + post, err)] *)
Definition Errorf (pre : string) (err : error) (post : string) : error :=
  errorString (pre +:+ Error err +:+ post).

(** *** Files and pipes *)

(** [os.Pipe()] for the pipe of the child's standard stream [i]; the
    ends are named ["|0"] and ["|1"] as [os.Pipe] does on Windows. *)
Definition os_Pipe (i : nat) : M (result (File * File)) := fun os =>
  match pipe_fault w i with
  | Some e => (Err e, os)
  | None =>
      let r := fresh_handle os in
      let os := set_open_files (union {[r]}) os in
      let pw := fresh_handle os in
      let os := set_open_files (union {[pw]}) os in
      (Ok ({| Fd := r; Name := "|0" |}, {| Fd := pw; Name := "|1" |}), os)
  end.

(** [f.Close()]: the handle is released whatever the system answers;
    closing twice reports [ErrClosed]. *)
Definition File_Close (f : File) : M (option error) := fun os =>
  if decide (Fd f ∈ open_files os)
  then (close_fault w (Fd f), set_open_files (fun s => s ∖ {[Fd f]}) os)
  else (Some (PathError "close" (Name f) ErrClosed), os).

(** [closeFileList] (part_000, lines 204-208). *)
Fixpoint closeFileList (fileList : list File) : M unit :=
  match fileList with
  | [] => mret tt
  | f :: fileList' => _ ← File_Close f; closeFileList fileList'
  end.

(** *** The bounded output buffer *)

Definition new_Buffer : M nat := fun os =>
  (length (buffers os), set_buffers (fun l => l ++ [""]) os).

Definition Buffer_Bytes (b : nat) : M string :=
  gets (fun os => default "" (buffers os !! b)).

Definition Buffer_Write (b : nat) (p : string) : M unit :=
  modify (set_buffers (alter (fun d => d +:+ p) b)).

(** Modelled from the spec: [limitBuffer.Write], whose declaration is in
    another file of the package.  The buffer "accumulates bytes up to a
    configured maximum, discarding/truncating excess": the bytes of [p]
    that still fit are stored, the rest never is; the write that did not
    fit is either reported as consumed ([Dropped]) or answered with an
    error ([Refused]), "depending on policy". *)
Definition limitBuffer_Write (b : limitBuffer) (p : string)
    : M (nat * option error) :=
  data ← Buffer_Bytes (lb_buf b);
  let room := lb_max b - len data in
  let kept := first_bytes room p in
  _ ← Buffer_Write (lb_buf b) kept;
  mret (if len p <=? room then (len p, None)
        else match overflow cfg with
             | Dropped => (len p, None)
             | Refused e => (len kept, Some e)
             end).

(** [io.Copy(dst, pr)]: the read loop of [io.copyBuffer], over the
    reads the pipe delivers and the way the stream ends. *)
Fixpoint io_Copy (dst : limitBuffer) (reads : list string)
    (ending : option error) : M (option error) :=
  match reads with
  | [] => mret ending
  | p :: reads' =>
      if 0 <? len p then
        '(nw, ew) ← limitBuffer_Write dst p;
        match ew with
        | Some e => mret (Some e)
        | None =>
            if nw =? len p then io_Copy dst reads' ending
            else mret (Some ErrShortWrite)
        end
      else io_Copy dst reads' ending
  end.

(** What the child writes to its standard stream [i] (1: stdout,
    2: stderr), as the reads of the pipe deliver it. *)
Definition stream_reads (i : nat) : list string :=
  match i with
  | 1 => stdout_reads w
  | 2 => stderr_reads w
  | _ => []
  end.
Definition stream_end (i : nat) : option error :=
  match i with
  | 1 => stdout_end w
  | 2 => stderr_end w
  | _ => None
  end.

(** *** The pipe relay *)

(** The closure [setInputPipe] schedules (lines 77-86). *)
Definition stdin_task (pw : File) (r : string) : M (option error) :=
  let err := stdin_copy w r in
  let err := if skipStdinCopyError err then None else err in
  err1 ← File_Close pw;
  mret (match err with None => err1 | Some _ => err end).

(** The closure [setOutputPipe] schedules (lines 98-102); [i] is the
    child's standard stream the pipe is attached to. *)
Definition output_task (i : nat) (dst : limitBuffer) (pr : File)
    : M (option error) :=
  err ← io_Copy dst (stream_reads i) (stream_end i);
  _ ← File_Close pr;
  mret err.

(** [setInputPipe] (part_000, lines 71-90).  The pipe made by the [i]-th
    call is handed to the child as its standard stream [i], [i] being
    the number of relays already set up: [execCommand] passes the
    handles of [closeAfterStart] in order. *)
Definition setInputPipe (r : string) (rl : Relay) : M (Relay * option error) :=
  p ← os_Pipe (length (closeAfterStart rl));
  match p with
  | Err err => mret (rl, Some (Errorf "failed to create pipe: " err ""))
  | Ok (pr, pw) =>
      mret ({| goroutine := goroutine rl ++ [stdin_task pw r];
               closeAfterStart := closeAfterStart rl ++ [pr];
               closeAfterWait := closeAfterWait rl ++ [pw] |}, None)
  end.

(** [setOutputPipe] (part_000, lines 92-106). *)
Definition setOutputPipe (dst : limitBuffer) (rl : Relay)
    : M (Relay * option error) :=
  let i := length (closeAfterStart rl) in
  p ← os_Pipe i;
  match p with
  | Err err => mret (rl, Some (Errorf "failed to create pipe: " err ""))
  | Ok (pr, pw) =>
      mret ({| goroutine := goroutine rl ++ [output_task i dst pr];
               closeAfterStart := closeAfterStart rl ++ [pw];
               closeAfterWait := closeAfterWait rl ++ [pr] |}, None)
  end.

(** *** The credential source *)

(** [registry.OpenKey(registry.LOCAL_MACHINE, path, registry.READ)] *)
Definition OpenKey (path : string) : result (gmap string RegValue) :=
  match registry_fault w with
  | Some e => Err e
  | None =>
      match registry_store w !! path with
      | None => Err ErrNotExist
      | Some k => Ok k
      end
  end.

(** [k.GetStringValue(name)] *)
Definition GetStringValue (k : gmap string RegValue) (name : string)
    : result string :=
  match k !! name with
  | None => Err ErrNotExist
  | Some (REG_SZ s) => Ok s
  | Some (REG_OTHER _) => Err ErrUnexpectedType
  end.

(** [getPasswordFromRegistry] (part_000, lines 41-58). *)
Definition getPasswordFromRegistry : string * option error :=
  match OpenKey passwordRegistryPath with
  | Err err =>
      if is_errno err ERROR_FILE_NOT_FOUND
      then ("", Some (errorString
              "Secret user password does not found in the registry"))
      else ("", Some (Errorf
              "can't read secrets user password from registry: " err ""))
  | Ok k =>
      match GetStringValue k username with
      | Err err =>
          ("", Some (Errorf
             "Could not read password for secrets user from registry: "
             err ""))
      | Ok password => (password, None)
      end
  end.

(** *** The process launcher *)

(** [syscall.DuplicateHandle] on a handle of this process. *)
Definition DuplicateHandle (i : nat) : M (result N) := fun os =>
  match dup_fault w i with
  | Some e => (Err e, os)
  | None =>
      let h := fresh_handle os in
      (Ok h, set_dup_handles (union {[h]}) os)
  end.

Definition CloseHandle (h : N) : M unit :=
  modify (set_dup_handles (fun s => s ∖ {[h]})).

(** Lines 137-153: the loop over [attr.Files].  [fd] holds the entries
    filled so far; an entry left at [0] was skipped. *)
Fixpoint duplicate_loop (files : list N) (i : nat) (fd : list N)
    : M (list N * option error) :=
  match files with
  | [] => mret (fd, None)
  | f :: files' =>
      if (0 <? f)%N then
        d ← DuplicateHandle i;
        match d with
        | Err err =>
            mret (fd, Some (Errorf
              "can't call DuplicateHandle to execute secretBackendCommand: "
              err (str1 Char.lf)))
        | Ok h => duplicate_loop files' (S i) (fd ++ [h])
        end
      else duplicate_loop files' (S i) (fd ++ [0%N])
  end.

(** The deferred [syscall.CloseHandle(fd[i])] of the entries that were
    duplicated, run when [startProcess] returns. *)
Fixpoint deferred_closes (fd : list N) : M unit :=
  match fd with
  | [] => mret tt
  | h :: fd' =>
      _ ← deferred_closes fd';
      if (0 <? h)%N then CloseHandle h else mret tt
  end.

(** Lines 155-201, after the handles were duplicated. *)
Definition create_process (argv0p argvp : string) (fd : list N)
    : M (result Process) :=
  let StdInput := default 0%N (fd !! 0) in
  let StdOutput := default 0%N (fd !! 1) in
  let StdErr := default 0%N (fd !! 2) in
  let '(password, err) := getPasswordFromRegistry in
  match err with
  | Some err => mret (Err err)
  | None =>
      let pPassword :=
        match UTF16PtrFromString password with
        | Ok p => p
        | Err _ => ""
        end in
      let call :=
        {| lpUsername := "datadog_secretuser"; lpDomain := ".";
           lpPassword := pPassword;
           lpApplicationName := argv0p; lpCommandLine := argvp;
           hStdInput := StdInput; hStdOutput := StdOutput;
           hStdError := StdErr; call_res := create_res w |} in
      _ ← modify (set_create_calls (fun l => l ++ [call]));
      if (create_res w =? 0)%N
      then mret (Err (Errorf "error from CreateProcessWithLogonW: "
                        (create_err w) (str1 Char.lf)))
      else
        match find_fault w with
        | Some err =>
            mret (Err (Errorf "error finding backend process: "
                         err (str1 Char.lf)))
        | None => mret (Ok {| Pid := create_pid w |})
        end
  end.

(** [startProcess] (part_000, lines 117-202). *)
Definition startProcess (argv0 : string) (argv : list string)
    (attr : ProcAttr) : M (result Process) :=
  match UTF16PtrFromString argv0 with
  | Err err =>
      mret (Err (Errorf "can't convert command string to UTF16: " err ""))
  | Ok argv0p =>
      let cmdline := makeCmdLine argv0 argv in
      match UTF16PtrFromString cmdline with
      | Err err =>
          mret (Err (Errorf "can't convert cmdline string to UTF16: " err ""))
      | Ok argvp =>
          '(fd, err) ← duplicate_loop (Files attr) 0 [];
          r ← match err with
              | Some err => mret (Err err)
              | None => create_process argv0p argvp fd
              end;
          _ ← deferred_closes fd;
          mret r
      end
  end.

(** *** The execution controller *)

Definition Process_Kill (p : Process) : M unit :=
  modify (set_kill_calls (fun l => l ++ [Pid p])).

(** Run the scheduled closures; they work on disjoint handles and
    buffers, so the order of their effects does not matter. *)
Fixpoint run_tasks (ts : list (M (option error))) : M (list (option error)) :=
  match ts with
  | [] => mret []
  | t :: ts' => r ← t; rs ← run_tasks ts'; mret (r :: rs)
  end.

(** [ctx.Err() == context.DeadlineExceeded] at line 288. *)
Definition deadline_exceeded : bool :=
  deadline_before_exit w || deadline_before_check w.

(** What [execCommand] returns, together with two of its locals at the
    time it returns: the values received from [errch], in order, and
    [copyError]. *)
Record Return : Type := {
  ret_bytes : option string;
  ret_err : option error;
  received : list (option error);
  copyError : option error
}.

(** [return nil, err] before the drain loop. *)
Definition fail (err : error) : Return :=
  {| ret_bytes := None; ret_err := Some err;
     received := []; copyError := None |}.

(** Lines 256-295 of [execCommand]: what happens once the child runs. *)
Definition supervise (rl : Relay) (stdout : limitBuffer) (process : Process)
    : M Return :=
  _ ← closeFileList (closeAfterStart rl);
  (* the watcher: [case <-ctx.Done(): process.Kill()] *)
  _ ← (if deadline_before_exit w then Process_Kill process else mret tt);
  let waited := wait_result w (deadline_before_exit w) in
  results ← run_tasks (goroutine rl);
  let received := arrive (arrival w) None results in
  let copyError := drain_errch received in
  _ ← closeFileList (closeAfterWait rl);
  match waited with
  | WaitFailed err =>
      if deadline_exceeded
      then mret {| ret_bytes := None;
                   ret_err := Some (errorString
                     ("error while running '" +:+ secretBackendCommand cfg
                      +:+ "': command timeout"));
                   received := received; copyError := copyError |}
      else mret {| ret_bytes := None;
                   ret_err := Some (errorString
                     ("error while running '" +:+ secretBackendCommand cfg
                      +:+ "': " +:+ Error err));
                   received := received; copyError := copyError |}
  | Exited code =>
      if negb (code =? 0)%N
      then mret {| ret_bytes := None;
                   ret_err := Some (errorString
                     ("'" +:+ secretBackendCommand cfg
                      +:+ "' exited with failure status"));
                   received := received; copyError := copyError |}
      else
        bytes ← Buffer_Bytes (lb_buf stdout);
        mret {| ret_bytes := Some bytes; ret_err := None;
                received := received; copyError := copyError |}
  end.

(** [execCommand] (part_000, lines 210-296); lines 256-295 are
    [supervise]. *)
Definition execCommand_body (inputPayload : string) : M Return :=
  let stdin := inputPayload in
  b ← new_Buffer;
  let stdout := {| lb_buf := b; lb_max := secretBackendOutputMaxSize cfg |} in
  b ← new_Buffer;
  let stderr := {| lb_buf := b; lb_max := secretBackendOutputMaxSize cfg |} in
  let rl := {| goroutine := []; closeAfterStart := []; closeAfterWait := [] |} in
  '(rl, err) ← setInputPipe stdin rl;
  match err with Some err => mret (fail err) | None =>
  '(rl, err) ← setOutputPipe stdout rl;
  match err with Some err => mret (fail err) | None =>
  '(rl, err) ← setOutputPipe stderr rl;
  match err with Some err => mret (fail err) | None =>
  let fds := Fd <$> closeAfterStart rl in
  started ← startProcess (secretBackendCommand cfg)
              (secretBackendArguments cfg) {| Files := fds |};
  match started with
  | Err err =>
      _ ← closeFileList (closeAfterStart rl);
      _ ← closeFileList (closeAfterWait rl);
      mret (fail err)
  | Ok process => supervise rl stdout process
  end end end end.

(** The pair [execCommand] hands to its caller. *)
Definition execCommand (inputPayload : string) (os : OS)
    : option string * option error :=
  let r := (execCommand_body inputPayload os).1 in
  (ret_bytes r, ret_err r).

End Exec.

(** ** What a bounded buffer holds *)

(** The reads of a stream, put end to end. *)
Definition joined (reads : list string) : string :=
  foldr (fun p acc => p +:+ acc) "" reads.

(** A buffer that held [d], after [reads] were written to it under the
    bound [max]. *)
Definition fill (max : nat) (reads : list string) (d : string) : string :=
  d +:+ first_bytes (max - len d) (joined reads).

(** [dst.buf.Bytes()] in the state [os]. *)
Definition contents (os : OS) (dst : limitBuffer) : string :=
  default "" (buffers os !! lb_buf dst).

(** [os'] differs from [os] at most in the duplicated handles and in the
    calls of the process-creation primitive. *)
Definition keeps_files (os os' : OS) : Prop :=
  open_files os' = open_files os ∧ buffers os' = buffers os ∧
  kill_calls os' = kill_calls os.

(** ** The error classes of the specification

    The specification names classes of errors; the code tells them apart
    by the message it formats. *)

Definition TimeoutError (cmd : string) : error :=
  errorString ("error while running '" +:+ cmd +:+ "': command timeout").

Definition ProcessWaitError (w : World) (cmd : string) (cause : error) : error :=
  errorString ("error while running '" +:+ cmd +:+ "': " +:+ Error w cause).

Definition NonZeroExitError (cmd : string) : error :=
  errorString ("'" +:+ cmd +:+ "' exited with failure status").

Definition CredentialNotFound : error :=
  errorString "Secret user password does not found in the registry".

Inductive CredentialReadError (w : World) : error → Prop :=
  | key_unreadable cause :
      CredentialReadError w
        (Errorf w "can't read secrets user password from registry: " cause "")
  | value_unreadable cause :
      CredentialReadError w
        (Errorf w "Could not read password for secrets user from registry: "
           cause "").

(** The state after the watcher had its say: [Kill] is on record when
    the deadline fired while the child ran. *)
Definition watched (w : World) (process : Process) (os : OS) : OS :=
  if deadline_before_exit w
  then set_kill_calls (fun l => l ++ [Pid process]) os
  else os.

(** Lines 287-295 as a function of what [execCommand] collected: the
    values received from [errch] and the bytes of the stdout buffer. *)
Definition verdict (cfg : Config) (w : World)
    (received : list (option error)) (bytes : string) : Return :=
  let copyError := drain_errch received in
  match wait_result w (deadline_before_exit w) with
  | WaitFailed err =>
      {| ret_bytes := None;
         ret_err := Some (if deadline_exceeded w
                          then TimeoutError (secretBackendCommand cfg)
                          else ProcessWaitError w (secretBackendCommand cfg) err);
         received := received; copyError := copyError |}
  | Exited code =>
      if (code =? 0)%N
      then {| ret_bytes := Some bytes; ret_err := None;
              received := received; copyError := copyError |}
      else {| ret_bytes := None;
              ret_err := Some (NonZeroExitError (secretBackendCommand cfg));
              received := received; copyError := copyError |}
  end.

(** The first error of a list of task results, if any. *)
Definition first_error (rs : list (option error)) : option error :=
  match omap id rs with
  | [] => None
  | e :: _ => Some e
  end.

(** The credential entry: the value named [username] under the key
    [passwordRegistryPath]. *)
Definition credential_entry (w : World) : option RegValue :=
  k ← registry_store w !! passwordRegistryPath; k !! username.

(** The world lets [execCommand] get as far as a running child. *)
Record launches (cfg : Config) (w : World) : Prop := {
  stdin_pipe_made : pipe_fault w 0 = None;
  stdout_pipe_made : pipe_fault w 1 = None;
  stderr_pipe_made : pipe_fault w 2 = None;
  command_encodes : contains Char.nul (secretBackendCommand cfg) = false;
  cmdline_encodes :
    contains Char.nul
      (makeCmdLine (secretBackendCommand cfg) (secretBackendArguments cfg))
    = false;
  stdin_duplicated : dup_fault w 0 = None;
  stdout_duplicated : dup_fault w 1 = None;
  stderr_duplicated : dup_fault w 2 = None;
  password_read : (getPasswordFromRegistry w).2 = None;
  process_created : create_res w ≠ 0%N;
  process_found : find_fault w = None
}.

(** The world lets [execCommand] get as far as the credential lookup. *)
Record reaches_credential (cfg : Config) (w : World) : Prop := {
  rc_stdin_pipe : pipe_fault w 0 = None;
  rc_stdout_pipe : pipe_fault w 1 = None;
  rc_stderr_pipe : pipe_fault w 2 = None;
  rc_command : contains Char.nul (secretBackendCommand cfg) = false;
  rc_cmdline :
    contains Char.nul
      (makeCmdLine (secretBackendCommand cfg) (secretBackendArguments cfg))
    = false;
  rc_stdin_dup : dup_fault w 0 = None;
  rc_stdout_dup : dup_fault w 1 = None;
  rc_stderr_dup : dup_fault w 2 = None
}.

(** ** Sample runs *)

Definition sample_config : Config :=
  {| secretBackendCommand := "C:\Program Files\secret.exe";
     secretBackendArguments := ["--payload"; "a b"];
     secretBackendTimeout := 5;
     secretBackendOutputMaxSize := 8;
     overflow := Dropped |}.

Definition provisioned : gmap string (gmap string RegValue) :=
  {[ passwordRegistryPath := {[ username := REG_SZ "pw" ]} ]}.

(** A world where nothing fails unless told otherwise: [pipes] are the
    pipe faults, [store] the registry, [late] whether the deadline fires
    while the child runs, [waited] the outcome of [Wait], [fed] the result
    of feeding stdin, [out_end] how the stdout stream ends. *)
Definition sample_world (pipes : nat → option error)
    (store : gmap string (gmap string RegValue)) (late : bool)
    (waited : bool → WaitResult) (fed out_end : option error) : World :=
  {| errno_text := fun _ => "errno";
     pipe_fault := pipes;
     dup_fault := fun _ => None;
     registry_store := store;
     registry_fault := None;
     create_res := 1; create_err := Errno 0; create_pid := 42;
     find_fault := None;
     deadline_before_exit := late; deadline_before_check := false;
     wait_result := waited;
     stdin_copy := fun _ => fed;
     close_fault := fun _ => None;
     stdout_reads := ["hello"; " world"]; stdout_end := out_end;
     stderr_reads := ["warn"]; stderr_end := None;
     arrival := A120 |}.

(** The child answers and exits with status 0 in time. *)
Definition quiet_world : World :=
  sample_world (fun _ => None) provisioned false (fun _ => Exited 0) None None.

(** ** More sample runs *)

(** The child is still running at the deadline; [Kill] ends it with
    status 1, which [Wait] reports without error (what
    [TerminateProcess(handle, 1)] gives on Windows). *)
Definition hung_world : World :=
  sample_world (fun _ => None) provisioned true
    (fun killed => if killed then Exited 1 else Exited 0) None None.

(** The child exits with status 3 in time. *)
Definition refusing_world : World :=
  sample_world (fun _ => None) provisioned false (fun _ => Exited 3) None None.

(** The child exits with status 0 without reading its input, and the
    read of its output ends with an error. *)
Definition noisy_world : World :=
  sample_world (fun _ => None) provisioned false (fun _ => Exited 0)
    (Some (PathError "write" "|1" (Errno ERROR_NO_DATA)))
    (Some (PathError "read" "|0" (Errno 6))).

(** The second pipe cannot be made. *)
Definition starved_world : World :=
  sample_world (fun i => if i =? 1 then Some (Errno 4) else None)
    provisioned false (fun _ => Exited 0) None None.



(** The call of the primitive [startProcess] makes in [quiet_world] for
    the sample command, on a system with nothing open: the duplicated
    handles are 1, 2 and 3. *)
Definition sample_call : CreateCall :=
  {| lpUsername := "datadog_secretuser"; lpDomain := "."; lpPassword := "pw";
     lpApplicationName := "C:\Program Files\secret.exe";
     lpCommandLine :=
       "C:\Program Files\secret.exe --payload "
       +:+ str1 Char.dquote +:+ "a b" +:+ str1 Char.dquote;
     hStdInput := 1; hStdOutput := 2; hStdError := 3; call_res := 1 |}.

(** A system with nothing open. *)
Definition idle : OS :=
  {| open_files := ∅; dup_handles := ∅; buffers := [];
     create_calls := []; kill_calls := [] |}.


(** The number of bytes [EscapeArg] has to escape in [s]. *)
Fixpoint specials (s : string) : nat :=
  match s with
  | "" => 0
  | String c s' =>
      (if Char.eq c Char.dquote || Char.eq c Char.backslash then 1 else 0)
      + specials s'
  end.

(** Case analysis on a byte the way both loops look at it. *)
Inductive byte_kind (c : ascii) : Prop :=
  | is_backslash :
      c = Char.backslash → byte_kind c
  | is_dquote :
      c = Char.dquote → byte_kind c
  | is_blank :
      Char.is_blank c = true → Char.eq c Char.backslash = false →
      Char.eq c Char.dquote = false → byte_kind c
  | is_other :
      Char.is_blank c = false → Char.eq c Char.backslash = false →
      Char.eq c Char.dquote = false → byte_kind c.

(** Where an argument may end: at the end of the line or before a blank. *)
Definition at_separator (rest : string) : bool :=
  match rest with
  | "" => true
  | String c _ => Char.is_blank c
  end.

Definition starts_with_dquote (rest : string) : bool :=
  match rest with
  | "" => false
  | String c _ => Char.eq c Char.dquote
  end.

(** [rest[1:]], or the empty string. *)
Definition drop1 (rest : string) : string :=
  match rest with
  | "" => ""
  | String _ r => r
  end.

(** ** Further sample runs *)

(** [w], with other outcomes for the handle duplication, the registry
    access, the process creation, the process lookup and the child's
    standard error. *)
Definition tweak_world (w : World) (dup : nat → option error)
    (fault : option error) (res : N) (found : option error)
    (err_reads : list string) (err_end : option error) : World :=
  {| errno_text := errno_text w;
     pipe_fault := pipe_fault w;
     dup_fault := dup;
     registry_store := registry_store w;
     registry_fault := fault;
     create_res := res; create_err := create_err w;
     create_pid := create_pid w;
     find_fault := found;
     deadline_before_exit := deadline_before_exit w;
     deadline_before_check := deadline_before_check w;
     wait_result := wait_result w;
     stdin_copy := stdin_copy w;
     close_fault := close_fault w;
     stdout_reads := stdout_reads w; stdout_end := stdout_end w;
     stderr_reads := err_reads; stderr_end := err_end;
     arrival := arrival w |}.

(** [w] with another standard error of the child. *)
Definition with_stderr (w : World) (reads : list string)
    (ending : option error) : World :=
  tweak_world w (dup_fault w) (registry_fault w) (create_res w)
    (find_fault w) reads ending.

(** The registry cannot be read: access is denied. *)
Definition locked_world : World :=
  tweak_world quiet_world (fun _ => None) (Some (Errno 5)) 1 None ["warn"] None.


(** The registry holds the password but the process cannot be created. *)
Definition barred_world : World :=
  tweak_world quiet_world (fun _ => None) None 0 None ["warn"] None.

(** The process is created but cannot be found afterwards. *)
Definition orphan_world : World :=
  tweak_world quiet_world (fun _ => None) None 1 (Some (Errno 87)) ["warn"] None.

(** The handle for the child's standard output cannot be duplicated. *)
Definition clogged_world : World :=
  tweak_world quiet_world (fun i => if i =? 1 then Some (Errno 6) else None)
    None 1 None ["warn"] None.

(** No pipe can be made. *)
Definition pipeless_world : World :=
  sample_world (fun _ => Some (Errno 4)) provisioned false
    (fun _ => Exited 0) None None.

(** [Wait] fails for a reason of its own, well before the deadline. *)
Definition crashed_world : World :=
  sample_world (fun _ => None) provisioned false
    (fun _ => WaitFailed (Errno 6)) None None.

(** [Wait] fails for a reason of its own, and the deadline passes while
    [execCommand] collects the results of the relays. *)
Definition slow_world : World :=
  {| errno_text := fun _ => "errno";
     pipe_fault := fun _ => None;
     dup_fault := fun _ => None;
     registry_store := provisioned;
     registry_fault := None;
     create_res := 1; create_err := Errno 0; create_pid := 42;
     find_fault := None;
     deadline_before_exit := false; deadline_before_check := true;
     wait_result := fun _ => WaitFailed (Errno 6);
     stdin_copy := fun _ => None;
     close_fault := fun _ => None;
     stdout_reads := ["hello"; " world"]; stdout_end := None;
     stderr_reads := ["warn"]; stderr_end := None;
     arrival := A120 |}.

(** A configuration with a NUL byte in its second argument. *)
Definition nul_config : Config :=
  {| secretBackendCommand := "secret.exe";
     secretBackendArguments := ["--payload"; "a" +:+ str1 Char.nul +:+ "b"];
     secretBackendTimeout := 5;
     secretBackendOutputMaxSize := 8;
     overflow := Dropped |}.

(** The relay lists before the first pipe is set up. *)
Definition no_relay : Relay :=
  {| goroutine := []; closeAfterStart := []; closeAfterWait := [] |}.

(** The handles a list of [fd] entries stands for: its entries but [0],
    which marks a file that was skipped. *)
Definition duplicated (fd : list N) : gset N := list_to_set fd ∖ {[0%N]}.

(** The call of the process-creation primitive the configuration asks
    for. *)
Definition configured (cfg : Config) (w : World) (call : CreateCall) : Prop :=
  lpApplicationName call = secretBackendCommand cfg ∧
  lpCommandLine call
  = makeCmdLine (secretBackendCommand cfg) (secretBackendArguments cfg) ∧
  call_res call = create_res w.

(** * Properties *)

(** ** Strings *)

Section StringFacts.
Implicit Types s t u : string.

Lemma app_cons c s t : String c s +:+ t = String c (s +:+ t).
Proof. reflexivity. Qed.

Lemma app_empty_l s : "" +:+ s = s.
Proof. reflexivity. Qed.

Lemma app_empty_r s : s +:+ "" = s.
Proof. induction s as [|c s IH]; [done|]. by rewrite app_cons, IH. Qed.

Lemma app_assoc s t u : (s +:+ t) +:+ u = s +:+ (t +:+ u).
Proof. induction s as [|c s IH]; [done|]. by rewrite !app_cons, IH. Qed.

Lemma len_app s t : len (s +:+ t) = len s + len t.
Proof. induction s as [|c s IH]; [done|]. rewrite app_cons. simpl. by rewrite IH. Qed.

Lemma bs_rep_shift n s :
  bs_rep n +:+ String Char.backslash s = String Char.backslash (bs_rep n +:+ s).
Proof.
  induction n as [|n IH]; [done|].
  simpl bs_rep. by rewrite !app_cons, IH.
Qed.

Lemma bs_rep_add n m : bs_rep (n + m) = bs_rep n +:+ bs_rep m.
Proof. induction n as [|n IH]; [done|]. simpl. by rewrite app_cons, IH. Qed.

Lemma len_first_bytes n s : len (first_bytes n s) = n `min` len s.
Proof.
  revert s. induction n as [|n IH]; intros [|c s]; simpl; try done.
  by rewrite IH.
Qed.

Lemma first_bytes_all n s : len s ≤ n → first_bytes n s = s.
Proof.
  revert s. induction n as [|n IH]; intros [|c s]; simpl; try done; try lia.
  intros ?. rewrite IH; [done|lia].
Qed.

Lemma first_bytes_app n s t :
  first_bytes n (s +:+ t) = first_bytes n s +:+ first_bytes (n - len s) t.
Proof.
  revert s. induction n as [|n IH]; intros [|c s].
  - by destruct t.
  - done.
  - done.
  - rewrite app_cons. simpl. by rewrite IH.
Qed.
End StringFacts.

(** ** The command line *)

Section CommandLine.
Implicit Types s t b rest : string.

Lemma eq_true c d : Char.eq c d = true → c = d.
Proof. unfold Char.eq. by intros ?%Ascii.eqb_eq. Qed.

Lemma byte_cases c : byte_kind c.
Proof.
  destruct (Char.eq c Char.backslash) eqn:Hb.
  { apply is_backslash. by apply eq_true. }
  destruct (Char.eq c Char.dquote) eqn:Hq.
  { apply is_dquote. by apply eq_true. }
  destruct (Char.is_blank c) eqn:Hs.
  - by apply is_blank.
  - by apply is_other.
Qed.

Lemma makeCmdLine_escaped_args cmd args :
  makeCmdLine cmd args = cmd +:+ escaped_args args.
Proof.
  unfold makeCmdLine. revert cmd.
  induction args as [|a args IH]; intros cmd; simpl.
  - by rewrite app_empty_r.
  - rewrite IH. by rewrite !app_assoc.
Qed.

(** *** What [escape_scan] computes *)

Lemma escape_scan_spec s n h :
  escape_scan s n h = (n + specials s, h || has_blank s).
Proof.
  revert n h. induction s as [|c s IH]; intros n h; simpl.
  - f_equal; [lia | by rewrite orb_false_r].
  - destruct (byte_cases c) as [-> | -> | Hs Hb Hq | Hs Hb Hq].
    + rewrite IH. simpl. f_equal. lia.
    + rewrite IH. simpl. f_equal. lia.
    + rewrite Hq, Hb, Hs. simpl. rewrite IH. f_equal. by rewrite orb_true_r.
    + rewrite Hq, Hb, Hs. simpl. by rewrite IH.
Qed.

Lemma escape_body_plain s k :
  contains Char.dquote s = false → escape_body s k false = s.
Proof.
  revert k. induction s as [|c s IH]; intros k; simpl; [done|].
  intros [Hc Hs]%orb_false_elim.
  rewrite Hc. destruct (Char.eq c Char.backslash); by rewrite IH.
Qed.

Lemma specials_0_no_dquote s : specials s = 0 → contains Char.dquote s = false.
Proof.
  induction s as [|c s IH]; simpl; [done|].
  destruct (Char.eq c Char.dquote); simpl; [lia|].
  destruct (Char.eq c Char.backslash); simpl; [lia|]. done.
Qed.

(** [EscapeArg] without its shortcut. *)
Lemma EscapeArg_unfold s :
  EscapeArg s =
    match s with
    | "" => String Char.dquote (str1 Char.dquote)
    | _ => if has_blank s
           then String Char.dquote (escape_body s 0 true)
           else escape_body s 0 false
    end.
Proof.
  destruct s as [|c s]; [done|].
  unfold EscapeArg. rewrite escape_scan_spec.
  set (t := String c s). change (len t =? 0) with false. cbv iota.
  change (false || has_blank t) with (has_blank t).
  destruct (has_blank t) eqn:Hb.
  - destruct (Nat.eqb_spec (len t + specials t + 2) (len t)); [lia|done].
  - destruct (Nat.eqb_spec (len t + specials t) (len t)) as [E|E]; [|done].
    rewrite escape_body_plain; [done|]. apply specials_0_no_dquote. lia.
Qed.

(** *** Single steps of [readNextArg] *)

Lemma half_double k : (k + k) / 2 = k.
Proof. replace (k + k) with (k * 2) by lia. apply Nat.div_mul. lia. Qed.

Lemma half_double_S k : S (k + k) / 2 = k.
Proof.
  replace (S (k + k)) with (1 + k * 2) by lia.
  rewrite Nat.div_add by lia. done.
Qed.

Lemma even_double k : Nat.even (k + k) = true.
Proof. replace (k + k) with (2 * k) by lia. by rewrite Nat.even_mul. Qed.

Lemma even_double_S k : Nat.even (S (k + k)) = false.
Proof.
  rewrite Nat.even_succ. replace (k + k) with (2 * k) by lia.
  by rewrite Nat.odd_mul.
Qed.

Lemma step_backslash rest b q k :
  readNextArg_loop (String Char.backslash rest) b q k
  = readNextArg_loop rest b q (S k).
Proof. reflexivity. Qed.

Lemma step_other c rest b q k :
  Char.is_blank c = false → Char.eq c Char.backslash = false →
  Char.eq c Char.dquote = false →
  readNextArg_loop (String c rest) b q k
  = readNextArg_loop rest (appendBSBytes b k +:+ str1 c) q 0.
Proof. intros Hs Hb Hq. simpl. by rewrite Hs, Hq, Hb. Qed.

Lemma step_blank_inquote c rest b k :
  Char.is_blank c = true →
  readNextArg_loop (String c rest) b true k
  = readNextArg_loop rest (appendBSBytes b k +:+ str1 c) true 0.
Proof. intros Hs. simpl. by rewrite Hs. Qed.

Lemma step_quote_odd rest b q k :
  Nat.even k = false →
  readNextArg_loop (String Char.dquote rest) b q k
  = readNextArg_loop rest (appendBSBytes b (k / 2) +:+ str1 Char.dquote) q 0.
Proof.
  intros Hk. change (readNextArg_loop (String Char.dquote rest) b q k) with
    (if Nat.even k then
       match rest with
       | String c1 rest1 =>
           if q && Char.eq c1 Char.dquote
           then readNextArg_loop rest1
                  (appendBSBytes b (k / 2) +:+ str1 Char.dquote) (negb q) 0
           else readNextArg_loop rest (appendBSBytes b (k / 2)) (negb q) 0
       | "" => readNextArg_loop rest (appendBSBytes b (k / 2)) (negb q) 0
       end
     else readNextArg_loop rest
            (appendBSBytes b (k / 2) +:+ str1 Char.dquote) q 0).
  by rewrite Hk.
Qed.

Lemma step_quote_even rest b q k :
  Nat.even k = true → q && starts_with_dquote rest = false →
  readNextArg_loop (String Char.dquote rest) b q k
  = readNextArg_loop rest (appendBSBytes b (k / 2)) (negb q) 0.
Proof.
  intros Hk Hq. change (readNextArg_loop (String Char.dquote rest) b q k) with
    (if Nat.even k then
       match rest with
       | String c1 rest1 =>
           if q && Char.eq c1 Char.dquote
           then readNextArg_loop rest1
                  (appendBSBytes b (k / 2) +:+ str1 Char.dquote) (negb q) 0
           else readNextArg_loop rest (appendBSBytes b (k / 2)) (negb q) 0
       | "" => readNextArg_loop rest (appendBSBytes b (k / 2)) (negb q) 0
       end
     else readNextArg_loop rest
            (appendBSBytes b (k / 2) +:+ str1 Char.dquote) q 0).
  rewrite Hk. destruct rest as [|c1 rest1]; [done|].
  simpl in Hq. by rewrite Hq.
Qed.

Lemma read_backslashes n rest b q k :
  readNextArg_loop (bs_rep n +:+ rest) b q k
  = readNextArg_loop rest b q (k + n).
Proof.
  revert k. induction n as [|n IH]; intros k; simpl bs_rep.
  - by rewrite app_empty_l, Nat.add_0_r.
  - rewrite app_cons, step_backslash, IH. f_equal. lia.
Qed.

Lemma read_separator rest b k :
  at_separator rest = true →
  readNextArg_loop rest b false k = (appendBSBytes b k, drop1 rest).
Proof.
  destruct rest as [|c r]; simpl; [done|]. by intros ->.
Qed.

Lemma separator_no_dquote rest :
  at_separator rest = true → starts_with_dquote rest = false.
Proof.
  destruct rest as [|c r]; simpl; [done|]. intros Hs.
  destruct (byte_cases c) as [-> | -> | ? ? ? | ? ? ?]; try done; congruence.
Qed.

(** *** Reading back one escaped argument *)

Ltac str_norm :=
  unfold appendBSBytes, str1; simpl bs_rep;
  repeat first
    [ rewrite app_assoc | rewrite app_cons | rewrite app_empty_l
    | rewrite app_empty_r ].

(** An argument without blanks is written without quotes and read up
    to the next separator. *)
Lemma read_unquoted s k b rest :
  has_blank s = false → at_separator rest = true →
  readNextArg_loop (escape_body s k false +:+ rest) b false k
  = (b +:+ bs_rep k +:+ s, drop1 rest).
Proof.
  revert k b. induction s as [|c s IH]; intros k b Hs Hsep.
  - simpl escape_body. rewrite app_empty_l, read_separator by done.
    by str_norm.
  - simpl in Hs. apply orb_false_elim in Hs as [Hc Hs].
    destruct (byte_cases c) as [-> | -> | Hs' _ _ | _ Hb Hq].
    + simpl escape_body. rewrite app_cons, step_backslash, IH by done.
      by rewrite bs_rep_shift.
    + simpl escape_body.
      rewrite app_assoc, read_backslashes, !app_cons, step_backslash.
      rewrite step_quote_odd by apply even_double_S.
      rewrite half_double_S, IH by done. by str_norm.
    + congruence.
    + simpl escape_body. rewrite Hb, Hq.
      rewrite app_cons, step_other, IH by done. by str_norm.
Qed.

(** An argument with a blank is written between quotes; the closing
    quote ends the quoted part. *)
Lemma read_quoted s k b rest :
  starts_with_dquote rest = false →
  readNextArg_loop (escape_body s k true +:+ rest) b true k
  = readNextArg_loop rest (b +:+ bs_rep k +:+ s) false 0.
Proof.
  revert k b. induction s as [|c s IH]; intros k b Hrest.
  - simpl escape_body. rewrite app_assoc, read_backslashes.
    unfold str1. rewrite app_cons, app_empty_l.
    rewrite step_quote_even; [|apply even_double|by rewrite Hrest].
    rewrite half_double. by str_norm.
  - destruct (byte_cases c) as [-> | -> | Hs Hb Hq | Hs Hb Hq].
    + simpl escape_body. rewrite app_cons, step_backslash, IH by done.
      by rewrite bs_rep_shift.
    + simpl escape_body.
      rewrite app_assoc, read_backslashes, !app_cons, step_backslash.
      rewrite step_quote_odd by apply even_double_S.
      rewrite half_double_S, IH by done. by str_norm.
    + simpl escape_body. rewrite Hb, Hq.
      rewrite app_cons, step_blank_inquote, IH by done. by str_norm.
    + simpl escape_body. rewrite Hb, Hq.
      rewrite app_cons, step_other, IH by done. by str_norm.
Qed.

(** [readNextArg] undoes [EscapeArg]. *)
Lemma readNextArg_EscapeArg a rest :
  at_separator rest = true →
  readNextArg (EscapeArg a +:+ rest) = (a, drop1 rest).
Proof.
  intros Hsep. pose proof (separator_no_dquote _ Hsep) as Hq.
  rewrite EscapeArg_unfold. unfold readNextArg. destruct a as [|c a].
  - unfold str1. rewrite !app_cons, app_empty_l.
    rewrite step_quote_even by done.
    rewrite step_quote_even; [|done|by rewrite Hq].
    by rewrite read_separator.
  - set (s := String c a). destruct (has_blank s) eqn:Hb.
    + rewrite app_cons, step_quote_even by done.
      change (0 / 2) with 0. rewrite read_quoted, read_separator by done.
      by str_norm.
    + by rewrite read_unquoted.
Qed.


(** *** Reading back the whole line *)

Lemma commandLineToArgv_loop_word n line :
  at_separator line = false →
  commandLineToArgv_loop (S n) line
  = let '(arg, cmd') := readNextArg line in
    cons arg <$> commandLineToArgv_loop n cmd'.
Proof.
  destruct line as [|c r]; simpl; [done|]. by intros ->.
Qed.

Lemma commandLineToArgv_loop_end n : commandLineToArgv_loop n "" = Some [].
Proof. by destruct n. Qed.

Lemma EscapeArg_head a rest : at_separator (EscapeArg a +:+ rest) = false.
Proof.
  rewrite EscapeArg_unfold. destruct a as [|c a]; [done|].
  set (s := String c a). destruct (has_blank s) eqn:Hb; [done|].
  subst s. simpl in Hb. apply orb_false_elim in Hb as [Hc _].
  simpl escape_body.
  destruct (byte_cases c) as [-> | -> | ? _ _ | _ Hb Hq]; try done.
  - congruence.
  - by rewrite Hb, Hq, app_cons.
Qed.


Lemma escaped_args_cons a args :
  escaped_args (a :: args)
  = String Char.space (EscapeArg a +:+ escaped_args args).
Proof. reflexivity. Qed.

(** A first word [tok] that reads back as [a], followed by escaped
    arguments, is split into [a] and the arguments. *)
Lemma commandLineToArgv_loop_words args : ∀ tok a n,
  (∀ rest, at_separator rest = true →
     readNextArg (tok +:+ rest) = (a, drop1 rest)) →
  (∀ rest, at_separator (tok +:+ rest) = false) →
  len (tok +:+ escaped_args args) < n →
  commandLineToArgv_loop n (tok +:+ escaped_args args) = Some (a :: args).
Proof.
  induction args as [|a2 args IH]; intros tok a n Hread Hhead Hn;
    (destruct n as [|n]; [lia|]);
    rewrite commandLineToArgv_loop_word by apply Hhead.
  - rewrite Hread by done. simpl drop1.
    by rewrite commandLineToArgv_loop_end.
  - rewrite escaped_args_cons in *. rewrite Hread by done. simpl drop1.
    rewrite (IH (EscapeArg a2) a2); first done.
    + intros rest. apply readNextArg_EscapeArg.
    + apply EscapeArg_head.
    + rewrite len_app in Hn. simpl in Hn. lia.
Qed.

(** The escaped arguments alone read back as the arguments. *)
Lemma commandLineToArgv_escaped_args args :
  commandLineToArgv (escaped_args args) = Some args.
Proof.
  destruct args as [|a args]; [done|].
  unfold commandLineToArgv. rewrite escaped_args_cons.
  change (commandLineToArgv_loop (S (len (String Char.space ?t))) _)
    with (commandLineToArgv_loop (S (len t)) t).
  apply commandLineToArgv_loop_words.
  - intros rest. apply readNextArg_EscapeArg.
  - apply EscapeArg_head.
  - lia.
Qed.
(** *** Any command path without a double quote *)













End CommandLine.



(** ** The operating system *)

Section OSFacts.
#[local] Set Warnings "-clear-no-such-hyp".
Variable cfg : Config.
Variable w : World.

Ltac run := unfold mbind, M_bind, mret, M_ret, gets, modify.

Ltac same_state :=
  match goal with
  | os : OS |- _ =>
      destruct os; unfold set_open_files, set_dup_handles, set_buffers,
        set_create_calls, set_kill_calls; simpl in *; f_equal; set_solver
  end.

Lemma fresh_handle_pos os : (0 <? fresh_handle os)%N = true.
Proof.
  apply N.ltb_lt. unfold fresh_handle.
  pose proof (is_fresh ({[0%N]} ∪ open_files os ∪ dup_handles os)) as H.
  assert (fresh ({[0%N]} ∪ open_files os ∪ dup_handles os) ≠ 0%N)
    by set_solver.
  lia.
Qed.

Lemma fresh_handle_closed os : fresh_handle os ∉ open_files os.
Proof.
  unfold fresh_handle.
  pose proof (is_fresh ({[0%N]} ∪ open_files os ∪ dup_handles os)).
  set_solver.
Qed.

Lemma File_Close_state f os :
  (File_Close w f os).2 = set_open_files (fun s => s ∖ {[Fd f]}) os.
Proof.
  unfold File_Close. case_decide; simpl; [done|]. same_state.
Qed.

Lemma closeFileList_spec fl os :
  closeFileList w fl os
  = (tt, set_open_files (fun s => s ∖ list_to_set (Fd <$> fl)) os).
Proof.
  revert os. induction fl as [|f fl IH]; intros os.
  - simpl. run. f_equal. same_state.
  - simpl. run.
    pose proof (File_Close_state f os) as E.
    destruct (File_Close w f os) as [e os']. simpl in E. subst os'.
    rewrite IH. f_equal. same_state.
Qed.

(** *** The bounded buffer *)

Lemma first_bytes_0 s : first_bytes 0 s = "".
Proof. by destruct s. Qed.

Lemma fill_nil max d : fill max [] d = d.
Proof.
  unfold fill. simpl. destruct (max - len d); simpl; by rewrite app_empty_r.
Qed.

Lemma fill_cons max p reads d :
  fill max (p :: reads) d = fill max reads (d +:+ first_bytes (max - len d) p).
Proof.
  unfold fill. simpl joined. rewrite first_bytes_app, app_assoc. do 2 f_equal.
  rewrite len_app, len_first_bytes. f_equal. lia.
Qed.

Lemma fill_full max p reads d :
  max - len d < len p →
  fill max (p :: reads) d = d +:+ first_bytes (max - len d) p.
Proof.
  intros H. unfold fill. simpl joined. rewrite first_bytes_app.
  replace (max - len d - len p) with 0 by lia.
  by rewrite first_bytes_0, app_empty_r.
Qed.

Lemma len_fill max reads d : len d ≤ max → len (fill max reads d) ≤ max.
Proof. intros H. unfold fill. rewrite len_app, len_first_bytes. lia. Qed.

Lemma fill_empty max reads : fill max reads "" = first_bytes max (joined reads).
Proof. unfold fill. simpl. by rewrite Nat.sub_0_r. Qed.

Lemma limitBuffer_Write_state dst p os :
  (limitBuffer_Write cfg dst p os).2
  = set_buffers
      (alter (fun d => d +:+ first_bytes (lb_max dst - len d) p) (lb_buf dst))
      os.
Proof.
  unfold limitBuffer_Write, Buffer_Bytes, Buffer_Write. run. simpl.
  unfold set_buffers. simpl. f_equal.
  apply list_alter_ext; [|done]. intros x Hx. by rewrite Hx.
Qed.

(** Whatever the reads, the stream's end and the overflow policy, the
    copy leaves in the buffer what fits of the reads put end to end. *)
Lemma io_Copy_state dst reads ending os :
  (io_Copy cfg dst reads ending os).2
  = set_buffers (alter (fill (lb_max dst) reads) (lb_buf dst)) os.
Proof.
  revert os. induction reads as [|p reads IH]; intros os.
  - simpl. destruct os; unfold set_buffers; simpl; f_equal.
    symmetry. apply list_alter_id. apply fill_nil.
  - simpl. destruct (0 <? len p) eqn:Hp.
    + run.
      pose proof (limitBuffer_Write_state dst p os) as E2.
      destruct (limitBuffer_Write cfg dst p os) as [[nw ew] os1] eqn:E.
      simpl in E2.
      assert (Hfin : ∀ os2 : OS,
        os2 = set_buffers (alter (fill (lb_max dst) reads) (lb_buf dst)) os1 →
        os2 = set_buffers
                (alter (fill (lb_max dst) (p :: reads)) (lb_buf dst)) os).
      { intros os2 ->. subst os1. unfold set_buffers. simpl. f_equal.
        rewrite list_alter_alter_eq. apply list_alter_ext; [|done].
        intros x _. simpl. by rewrite fill_cons. }
      unfold limitBuffer_Write, Buffer_Bytes, Buffer_Write in E.
      unfold mbind, M_bind, mret, M_ret, gets, modify in E. simpl in E.
      destruct (len p <=? lb_max dst
                  - len (default "" (buffers os !! lb_buf dst))) eqn:Hfit.
      * injection E as <- <- _. rewrite Nat.eqb_refl. apply Hfin, IH.
      * destruct (overflow cfg).
        -- injection E as <- <- _. rewrite Nat.eqb_refl. apply Hfin, IH.
        -- injection E as <- <- _. simpl. subst os1.
           unfold set_buffers. simpl. f_equal.
           apply list_alter_ext; [|done]. intros x Hx.
           rewrite Hx in Hfit. simpl in Hfit.
           apply Nat.leb_gt in Hfit. by rewrite fill_full.
    + rewrite IH. apply Nat.ltb_ge in Hp. destruct p; [|simpl in Hp; lia].
      done.
Qed.

(** *** The launcher *)

Lemma DuplicateHandle_keeps i os :
  keeps_files os (DuplicateHandle w i os).2 ∧
  create_calls (DuplicateHandle w i os).2 = create_calls os.
Proof. unfold DuplicateHandle. by destruct (dup_fault w i). Qed.

Lemma duplicate_loop_keeps files : ∀ i fd os,
  keeps_files os (duplicate_loop w files i fd os).2 ∧
  create_calls (duplicate_loop w files i fd os).2 = create_calls os.
Proof.
  induction files as [|f files IH]; intros i fd os; simpl; [done|].
  destruct (0 <? f)%N; [|apply IH]. run.
  pose proof (DuplicateHandle_keeps i os) as ((Ho & Hb & Hk) & Hc).
  destruct (DuplicateHandle w i os) as [[h|err] os1]; simpl in *.
  - destruct (IH (S i) (fd ++ [h]) os1) as ((Ho' & Hb' & Hk') & Hc').
    unfold keeps_files. by rewrite Ho', Hb', Hk', Hc'.
  - done.
Qed.

Lemma duplicate_loop_ok files : ∀ i fd os,
  (∀ j, j < length files → dup_fault w (i + j) = None) →
  (duplicate_loop w files i fd os).1.2 = None.
Proof.
  induction files as [|f files IH]; intros i fd os Hdup; simpl; [done|].
  assert (Hnext : ∀ j, j < length files → dup_fault w (S i + j) = None).
  { intros j Hj. replace (S i + j) with (i + S j) by lia.
    apply Hdup. simpl. lia. }
  destruct (0 <? f)%N; [|by apply IH]. run.
  unfold DuplicateHandle. rewrite <-(Nat.add_0_r i) at 1.
  rewrite Hdup by (simpl; lia). by apply IH.
Qed.

Lemma deferred_closes_keeps fd : ∀ os,
  keeps_files os (deferred_closes fd os).2 ∧
  create_calls (deferred_closes fd os).2 = create_calls os.
Proof.
  induction fd as [|h fd IH]; intros os; simpl; [done|]. run.
  destruct (IH os) as (Hk & Hc).
  destruct (deferred_closes fd os) as [[] os1]. simpl in *.
  by destruct (0 <? h)%N.
Qed.

Lemma create_process_keeps argv0p argvp fd os :
  keeps_files os (create_process w argv0p argvp fd os).2.
Proof.
  unfold create_process. destruct (getPasswordFromRegistry w) as [pw [e|]];
    [done|]. run.
  destruct (create_res w =? 0)%N; [done|]. by destruct (find_fault w).
Qed.

(** The primitive is called at most once, with [argv0p] as application
    name and [argvp] as command line. *)
Lemma create_process_calls argv0p argvp fd os :
  create_calls (create_process w argv0p argvp fd os).2 = create_calls os ∨
  ∃ call,
    create_calls (create_process w argv0p argvp fd os).2
    = create_calls os ++ [call] ∧
    lpApplicationName call = argv0p ∧ lpCommandLine call = argvp ∧
    call_res call = create_res w.
Proof.
  unfold create_process. destruct (getPasswordFromRegistry w) as [pw [e|]];
    [by left|]. right. run.
  destruct (create_res w =? 0)%N; [|destruct (find_fault w)];
    (eexists; split; [reflexivity|done]).
Qed.

Lemma create_process_ok argv0p argvp fd os :
  (getPasswordFromRegistry w).2 = None → create_res w ≠ 0%N →
  find_fault w = None →
  (create_process w argv0p argvp fd os).1 = Ok {| Pid := create_pid w |}.
Proof.
  intros Hpw Hres Hfind. unfold create_process.
  destruct (getPasswordFromRegistry w) as [pw err]. simpl in Hpw. subst err.
  run. apply N.eqb_neq in Hres. by rewrite Hres, Hfind.
Qed.

Lemma create_process_no_password argv0p argvp fd os e :
  (getPasswordFromRegistry w).2 = Some e →
  create_process w argv0p argvp fd os = (Err e, os).
Proof.
  intros Hpw. unfold create_process.
  destruct (getPasswordFromRegistry w) as [pw err]. simpl in Hpw. by subst err.
Qed.

Lemma startProcess_keeps argv0 argv attr os :
  keeps_files os (startProcess w argv0 argv attr os).2.
Proof.
  unfold startProcess.
  destruct (UTF16PtrFromString argv0); [|done].
  destruct (UTF16PtrFromString (makeCmdLine argv0 argv)); [|done]. run.
  pose proof (duplicate_loop_keeps (Files attr) 0 [] os) as ((Ho & Hb & Hk) & _).
  destruct (duplicate_loop w (Files attr) 0 [] os) as [[fd err] os1].
  simpl in *.
  assert (H2 : ∀ (m : M (result Process)),
    keeps_files os1 (m os1).2 →
    keeps_files os
      (let '(r, os2) := m os1 in
       let '(_, os3) := deferred_closes fd os2 in (r, os3)).2).
  { intros m (Ho2 & Hb2 & Hk2). destruct (m os1) as [r os2]. simpl in *.
    pose proof (deferred_closes_keeps fd os2) as ((Ho3 & Hb3 & Hk3) & _).
    destruct (deferred_closes fd os2) as [[] os3]. simpl in *.
    unfold keeps_files. by rewrite Ho3, Hb3, Hk3, Ho2, Hb2, Hk2. }
  destruct err as [err|].
  - by apply (H2 (fun os => (Err err, os))).
  - apply (H2 (create_process w a a0 fd)). apply create_process_keeps.
Qed.

Lemma startProcess_ok argv0 argv attr os :
  contains Char.nul argv0 = false →
  contains Char.nul (makeCmdLine argv0 argv) = false →
  (∀ j, j < length (Files attr) → dup_fault w j = None) →
  (getPasswordFromRegistry w).2 = None → create_res w ≠ 0%N →
  find_fault w = None →
  (startProcess w argv0 argv attr os).1 = Ok {| Pid := create_pid w |}.
Proof.
  intros H0 Hl Hdup Hpw Hres Hfind.
  unfold startProcess, UTF16PtrFromString. rewrite H0, Hl. run.
  pose proof (duplicate_loop_ok (Files attr) 0 [] os Hdup) as Herr.
  destruct (duplicate_loop w (Files attr) 0 [] os) as [[fd err] os1].
  simpl in Herr. subst err.
  pose proof (create_process_ok argv0 (makeCmdLine argv0 argv) fd os1
                Hpw Hres Hfind) as Hok.
  destruct (create_process w argv0 (makeCmdLine argv0 argv) fd os1)
    as [r os2].
  simpl in Hok. subst r. by destruct (deferred_closes fd os2) as [[] os3].
Qed.

Lemma startProcess_no_password argv0 argv attr os e :
  contains Char.nul argv0 = false →
  contains Char.nul (makeCmdLine argv0 argv) = false →
  (∀ j, j < length (Files attr) → dup_fault w j = None) →
  (getPasswordFromRegistry w).2 = Some e →
  (startProcess w argv0 argv attr os).1 = Err e ∧
  create_calls (startProcess w argv0 argv attr os).2 = create_calls os.
Proof.
  intros H0 Hl Hdup Hpw.
  unfold startProcess, UTF16PtrFromString. rewrite H0, Hl. run.
  pose proof (duplicate_loop_ok (Files attr) 0 [] os Hdup) as Herr.
  pose proof (duplicate_loop_keeps (Files attr) 0 [] os) as [_ Hc].
  destruct (duplicate_loop w (Files attr) 0 [] os) as [[fd err] os1].
  simpl in Herr, Hc. subst err.
  rewrite (create_process_no_password _ _ _ _ _ Hpw).
  pose proof (deferred_closes_keeps fd os1) as [_ Hc'].
  destruct (deferred_closes fd os1) as [[] os3]. simpl in *.
  by rewrite Hc', Hc.
Qed.

(** Whatever happens, [startProcess] calls the primitive at most once,
    with [argv0] itself as application name and the line of
    [makeCmdLine]. *)
Lemma startProcess_calls argv0 argv attr os :
  create_calls (startProcess w argv0 argv attr os).2 = create_calls os ∨
  ∃ call,
    create_calls (startProcess w argv0 argv attr os).2
    = create_calls os ++ [call] ∧
    lpApplicationName call = argv0 ∧
    lpCommandLine call = makeCmdLine argv0 argv ∧
    call_res call = create_res w.
Proof.
  unfold startProcess, UTF16PtrFromString.
  destruct (contains Char.nul argv0); [by left|].
  destruct (contains Char.nul (makeCmdLine argv0 argv)); [by left|]. run.
  pose proof (duplicate_loop_keeps (Files attr) 0 [] os) as [_ Hc].
  destruct (duplicate_loop w (Files attr) 0 [] os) as [[fd err] os1].
  simpl in Hc. destruct err as [err|].
  - left. pose proof (deferred_closes_keeps fd os1) as [_ Hc'].
    destruct (deferred_closes fd os1) as [[] os3]. simpl in *. congruence.
  - pose proof (create_process_calls argv0 (makeCmdLine argv0 argv) fd os1)
      as Hcall.
    destruct (create_process w argv0 (makeCmdLine argv0 argv) fd os1)
      as [r os2].
    pose proof (deferred_closes_keeps fd os2) as [_ Hc'].
    destruct (deferred_closes fd os2) as [[] os3]. simpl in *.
    rewrite Hc', <-Hc. exact Hcall.
Qed.

(** *** The relay tasks and the controller *)

Lemma stdin_task_state pw r os :
  (stdin_task w pw r os).2 = set_open_files (fun s => s ∖ {[Fd pw]}) os.
Proof.
  unfold stdin_task. run. pose proof (File_Close_state pw os) as E.
  by destruct (File_Close w pw os) as [e os'].
Qed.

Lemma output_task_state i dst pr os :
  (output_task cfg w i dst pr os).2
  = set_open_files (fun s => s ∖ {[Fd pr]})
      (set_buffers
         (alter (fill (lb_max dst) (stream_reads w i)) (lb_buf dst)) os).
Proof.
  unfold output_task. run.
  pose proof (io_Copy_state dst (stream_reads w i) (stream_end w i) os) as E.
  destruct (io_Copy cfg dst (stream_reads w i) (stream_end w i) os)
    as [e os1]. simpl in E. subst os1.
  match goal with |- context [File_Close w pr ?o] =>
    pose proof (File_Close_state pr o) as E;
    destruct (File_Close w pr o) as [e' os2] end.
  by simpl in *.
Qed.

Lemma supervise_spec rl stdout process os :
  supervise cfg w rl stdout process os
  = let '(results, os2) :=
      run_tasks (goroutine rl)
        (watched w process
           (set_open_files
              (fun s => s ∖ list_to_set (Fd <$> closeAfterStart rl)) os)) in
    let os3 :=
      set_open_files (fun s => s ∖ list_to_set (Fd <$> closeAfterWait rl))
        os2 in
    (verdict cfg w (arrive (arrival w) None results) (contents os3 stdout),
     os3).
Proof.
  unfold supervise, watched, verdict, Process_Kill, Buffer_Bytes. run.
  rewrite closeFileList_spec.
  destruct (deadline_before_exit w) eqn:Hk;
    (match goal with |- context [run_tasks ?ts ?o] =>
       destruct (run_tasks ts o) as [results os2] end;
     rewrite closeFileList_spec;
     destruct (wait_result w _) as [code|err];
     [ by destruct (code =? 0)%N
     | unfold deadline_exceeded; rewrite ?Hk;
       by destruct (deadline_before_check w) ]).
Qed.

(** The three tasks of [execCommand] touch the buffers as two copies do,
    and nothing else but the open files. *)
Lemma run_tasks_three pw pr1 pr2 payload so se os :
  ∃ r0 r1 r2 os',
    run_tasks [stdin_task w pw payload; output_task cfg w 1 so pr1;
               output_task cfg w 2 se pr2] os
    = ([r0; r1; r2], os') ∧
    buffers os'
    = alter (fill (lb_max se) (stderr_reads w)) (lb_buf se)
        (alter (fill (lb_max so) (stdout_reads w)) (lb_buf so) (buffers os)) ∧
    kill_calls os' = kill_calls os ∧ create_calls os' = create_calls os.
Proof.
  simpl run_tasks. run.
  pose proof (stdin_task_state pw payload os) as E0.
  destruct (stdin_task w pw payload os) as [r0 os0]. simpl in E0.
  pose proof (output_task_state 1 so pr1 os0) as E1.
  destruct (output_task cfg w 1 so pr1 os0) as [r1 os1]. simpl in E1.
  pose proof (output_task_state 2 se pr2 os1) as E2.
  destruct (output_task cfg w 2 se pr2 os1) as [r2 os2]. simpl in E2.
  exists r0, r1, r2, os2. subst. by simpl.
Qed.

(** When the world lets the child start, [execCommand] is [supervise] on
    the three relays, the two buffers being new and empty. *)
Lemma execCommand_body_launched payload os :
  launches cfg w →
  let so := {| lb_buf := length (buffers os);
               lb_max := secretBackendOutputMaxSize cfg |} in
  let se := {| lb_buf := S (length (buffers os));
               lb_max := secretBackendOutputMaxSize cfg |} in
  ∃ pr0 pw0 pr1 pw1 pr2 pw2 os1,
    execCommand_body cfg w payload os
    = supervise cfg w
        {| goroutine := [stdin_task w pw0 payload;
                         output_task cfg w 1 so pr1;
                         output_task cfg w 2 se pr2];
           closeAfterStart := [pr0; pw1; pw2];
           closeAfterWait := [pw0; pr1; pr2] |}
        so {| Pid := create_pid w |} os1 ∧
    buffers os1 = buffers os ++ [""; ""] ∧
    kill_calls os1 = kill_calls os.
Proof.
  intros [Hp0 Hp1 Hp2 Hc Hl Hd0 Hd1 Hd2 Hpw Hres Hfind] so se.
  unfold execCommand_body, new_Buffer, setInputPipe, setOutputPipe, os_Pipe.
  run. simpl. rewrite Hp0. simpl. rewrite Hp1. simpl. rewrite Hp2. simpl.
  match goal with |- context [startProcess w ?c ?a ?attr ?o] =>
    pose proof (startProcess_ok c a attr o Hc Hl) as Hok;
    pose proof (startProcess_keeps c a attr o) as (Ho & Hb & Hk);
    destruct (startProcess w c a attr o) as [r os1] end.
  simpl in Hok, Ho, Hb, Hk. rewrite Hok; [|by intros [|[|[|j]]] ?; [..|simpl in *; lia]|done..].
  rewrite length_app, Nat.add_1_r. simpl length.
  do 7 eexists. split; [reflexivity|]. rewrite Hb, Hk.
  by rewrite <-List.app_assoc.
Qed.

Lemma buffers_watched process os : buffers (watched w process os) = buffers os.
Proof. unfold watched. by destruct (deadline_before_exit w). Qed.

Lemma kill_calls_watched process os :
  kill_calls (watched w process os)
  = if deadline_before_exit w then kill_calls os ++ [Pid process]
    else kill_calls os.
Proof. unfold watched. by destruct (deadline_before_exit w). Qed.

(** The whole run, when the child starts: the verdict on what the three
    tasks reported and on the first bytes of the child's output, and the
    two buffers at the end. *)
Lemma execCommand_body_run payload os :
  launches cfg w →
  let max := secretBackendOutputMaxSize cfg in
  let so := {| lb_buf := length (buffers os); lb_max := max |} in
  let se := {| lb_buf := S (length (buffers os)); lb_max := max |} in
  ∃ r0 r1 r2 os',
    execCommand_body cfg w payload os
    = (verdict cfg w (arrive (arrival w) None [r0; r1; r2])
         (contents os' so), os') ∧
    contents os' so = first_bytes max (joined (stdout_reads w)) ∧
    contents os' se = first_bytes max (joined (stderr_reads w)) ∧
    kill_calls os'
    = if deadline_before_exit w then kill_calls os ++ [create_pid w]
      else kill_calls os.
Proof.
  intros Hl max so se.
  destruct (execCommand_body_launched payload os Hl)
    as (pr0 & pw0 & pr1 & pw1 & pr2 & pw2 & os1 & -> & Hb & Hk).
  rewrite supervise_spec. cbn [goroutine closeAfterStart closeAfterWait].
  fold max so se.
  match goal with |- context [run_tasks ?ts ?o] =>
    destruct (run_tasks_three pw0 pr1 pr2 payload so se o)
      as (r0 & r1 & r2 & os2 & -> & Hb2 & Hk2 & _) end.
  rewrite buffers_watched in Hb2. rewrite kill_calls_watched in Hk2.
  simpl in Hb2, Hk2. rewrite Hb in Hb2. rewrite Hk in Hk2.
  eexists r0, r1, r2, _. split; [reflexivity|].
  unfold contents. cbn [buffers set_open_files lb_buf so se]. rewrite Hb2.
  cbn [lb_buf lb_max so se].
  assert (Hso : (buffers os ++ [""; ""]) !! length (buffers os) = Some "").
  { by rewrite lookup_app_r, Nat.sub_diag by lia. }
  assert (Hse : (buffers os ++ [""; ""]) !! S (length (buffers os)) = Some "").
  { rewrite lookup_app_r by lia.
    by replace (S (length (buffers os)) - length (buffers os)) with 1 by lia. }
  repeat split.
  - rewrite list_lookup_alter_ne by lia.
    rewrite list_lookup_alter_eq, Hso. simpl. apply fill_empty.
  - rewrite list_lookup_alter_eq, list_lookup_alter_ne, Hse by lia.
    simpl. apply fill_empty.
  - done.
Qed.

End OSFacts.

(** * The claims *)

Lemma launches_sample (pipes : nat → option error) late waited fed out_end :
  pipes 0 = None → pipes 1 = None → pipes 2 = None →
  launches sample_config
    (sample_world pipes provisioned late waited fed out_end).
Proof. intros. by split. Qed.

Lemma drain_errch_first_error received :
  drain_errch received = first_error received.
Proof.
  unfold drain_errch, first_error.
  assert (H : ∀ acc, fold_left keep_first received acc
            = match acc with
              | Some e => Some e
              | None => match omap id received with
                        | [] => None
                        | e :: _ => Some e
                        end
              end); [|exact (H None)].
  induction received as [|[e|] rs IH]; intros acc; simpl.
  - by destruct acc.
  - rewrite IH. by destruct acc.
  - rewrite IH. by destruct acc.
Qed.

Lemma length_arrive {A} a (d : A) rs : length (arrive a d rs) = 3.
Proof. by destruct a. Qed.

Lemma NonZeroExit_not_Timeout cmd : NonZeroExitError cmd ≠ TimeoutError cmd.
Proof.
  unfold NonZeroExitError, TimeoutError. intros H. injection H as H.
  done.
Qed.

Lemma NonZeroExit_not_ProcessWait w cmd cause :
  NonZeroExitError cmd ≠ ProcessWaitError w cmd cause.
Proof.
  unfold NonZeroExitError, ProcessWaitError. intros H. injection H as H.
  done.
Qed.

(** C8. When the wait succeeds and the command exits with a failure
    status, [execCommand] returns no bytes and the non-zero-exit error,
    which is not a wait error. *)
Theorem execCommand_exit_failure cfg w payload os code :
  launches cfg w →
  wait_result w (deadline_before_exit w) = Exited code → code ≠ 0%N →
  execCommand cfg w payload os
  = (None, Some (NonZeroExitError (secretBackendCommand cfg))) ∧
  ∀ cause,
    NonZeroExitError (secretBackendCommand cfg)
    ≠ ProcessWaitError w (secretBackendCommand cfg) cause.
Proof.
  intros Hl Hwait Hcode. split; [|intros; apply NonZeroExit_not_ProcessWait].
  destruct (execCommand_body_run cfg w payload os Hl)
    as (r0 & r1 & r2 & os' & E & _).
  unfold execCommand. rewrite E. unfold verdict. rewrite Hwait.
  apply N.eqb_neq in Hcode. by rewrite Hcode.
Qed.

Lemma execCommand_exit_failure_witness :
  execCommand sample_config refusing_world "{}" idle
  = (None, Some (NonZeroExitError "C:\Program Files\secret.exe")).
Proof.
  refine (proj1 (execCommand_exit_failure sample_config refusing_world
                   "{}" idle 3 _ _ _)).
  - by apply launches_sample.
  - reflexivity.
  - done.
Defined.

(** C2. When the command exits with success status before the deadline
    and its output was read to the end of the stream, [execCommand]
    returns the bytes the command wrote to its standard output, cut to
    [secretBackendOutputMaxSize], and no error. *)
Theorem execCommand_success cfg w payload os :
  launches cfg w →
  deadline_before_exit w = false → wait_result w false = Exited 0 →
  stdout_end w = None →
  execCommand cfg w payload os
  = (Some (first_bytes (secretBackendOutputMaxSize cfg)
             (joined (stdout_reads w))), None).
Proof.
  intros Hl Hd Hwait _.
  destruct (execCommand_body_run cfg w payload os Hl)
    as (r0 & r1 & r2 & os' & E & Hout & _).
  unfold execCommand. rewrite E. unfold verdict. rewrite Hd, Hwait. simpl.
  by rewrite Hout.
Qed.

Lemma execCommand_success_witness :
  execCommand sample_config quiet_world "{}" idle = (Some "hello wo", None).
Proof.
  refine (execCommand_success sample_config quiet_world "{}" idle _ _ _ _).
  - by apply launches_sample.
  - reflexivity.
  - reflexivity.
  - reflexivity.
Defined.

(** C9. When the wait returns no error and the exit status is success,
    [execCommand] returns the contents of the stdout buffer and no error,
    whatever the three relay tasks reported; [copyError] is the first
    error among the three values received from [errch], and nothing
    reads it. *)
Theorem execCommand_copy_errors_ignored cfg w payload os :
  launches cfg w →
  wait_result w (deadline_before_exit w) = Exited 0 →
  let r := (execCommand_body cfg w payload os).1 in
  let os' := (execCommand_body cfg w payload os).2 in
  let stdout := {| lb_buf := length (buffers os);
                   lb_max := secretBackendOutputMaxSize cfg |} in
  ret_err r = None ∧
  ret_bytes r = Some (contents os' stdout) ∧
  length (received r) = 3 ∧
  copyError r = first_error (received r).
Proof.
  intros Hl Hwait.
  destruct (execCommand_body_run cfg w payload os Hl)
    as (r0 & r1 & r2 & os' & E & _).
  rewrite E. unfold verdict. rewrite Hwait. simpl.
  split_and!; [done|done|apply length_arrive|apply drain_errch_first_error].
Qed.

Lemma execCommand_copy_errors_ignored_witness :
  let r := (execCommand_body sample_config noisy_world "{}" idle).1 in
  ret_err r = None ∧ ret_bytes r = Some "hello wo" ∧
  received r = [Some (PathError "read" "|0" (Errno 6)); None; None] ∧
  copyError r = Some (PathError "read" "|0" (Errno 6)).
Proof.
  assert (Hl : launches sample_config noisy_world) by by apply launches_sample.
  pose proof (execCommand_copy_errors_ignored sample_config noisy_world
                "{}" idle Hl eq_refl) as (He & Hb & _ & Hc).
  split_and!; [exact He| |reflexivity|].
  - rewrite Hb. reflexivity.
  - rewrite Hc. reflexivity.
Defined.

(** C7. When the command exits with success status although the copy to
    its stdin stopped on [ERROR_BROKEN_PIPE] or [ERROR_NO_DATA] (a write
    to the pipe end named ["|1"]), the call still returns the output and
    no error, and the stdin task reports only what closing its pipe end
    gives: the broken pipe is forgotten. *)
Theorem stdin_broken_pipe_benign cfg w payload os code :
  launches cfg w →
  wait_result w (deadline_before_exit w) = Exited 0 →
  stdin_copy w payload = Some (PathError "write" "|1" (Errno code)) →
  code = ERROR_BROKEN_PIPE ∨ code = ERROR_NO_DATA →
  execCommand cfg w payload os
  = (Some (first_bytes (secretBackendOutputMaxSize cfg)
             (joined (stdout_reads w))), None) ∧
  ∀ pw os1, stdin_task w pw payload os1 = File_Close w pw os1.
Proof.
  intros Hl Hwait Hcopy Hcode. split.
  - destruct (execCommand_body_run cfg w payload os Hl)
      as (r0 & r1 & r2 & os' & E & Hout & _).
    unfold execCommand. rewrite E. unfold verdict. rewrite Hwait. simpl.
    by rewrite Hout.
  - intros pw os1. unfold stdin_task. rewrite Hcopy.
    assert (Hskip : skipStdinCopyError
                      (Some (PathError "write" "|1" (Errno code))) = true)
      by (destruct Hcode as [-> | ->]; reflexivity).
    rewrite Hskip. unfold mbind, M_bind, mret, M_ret.
    by destruct (File_Close w pw os1).
Qed.

Lemma stdin_broken_pipe_benign_witness :
  execCommand sample_config noisy_world "{}" idle = (Some "hello wo", None) ∧
  ∀ pw os1, stdin_task noisy_world pw "{}" os1 = File_Close noisy_world pw os1.
Proof.
  refine (stdin_broken_pipe_benign sample_config noisy_world "{}" idle
            ERROR_NO_DATA _ _ _ _).
  - by apply launches_sample.
  - reflexivity.
  - reflexivity.
  - by right.
Defined.

(** The part of C1 the code keeps: when [Wait] fails and the deadline has
    passed, the error is the timeout error, whatever the cause [Wait]
    gave. *)
Lemma execCommand_timeout_on_wait_error cfg w payload os cause :
  launches cfg w →
  deadline_before_exit w = true → wait_result w true = WaitFailed cause →
  execCommand cfg w payload os
  = (None, Some (TimeoutError (secretBackendCommand cfg))).
Proof.
  intros Hl Hd Hwait.
  destruct (execCommand_body_run cfg w payload os Hl)
    as (r0 & r1 & r2 & os' & E & _).
  unfold execCommand. rewrite E. unfold verdict, deadline_exceeded.
  by rewrite Hd, Hwait.
Qed.

(** C1, as the code has it: the command is still running at the deadline
    and is killed, [Wait] then returns the failure status of the killed
    process without error, and [execCommand] returns the non-zero-exit
    error, not the timeout error. *)
Theorem deadline_kill_reported_as_exit_failure cfg w payload os code :
  launches cfg w →
  deadline_before_exit w = true →
  wait_result w true = Exited code → code ≠ 0%N →
  kill_calls (execCommand_body cfg w payload os).2
  = kill_calls os ++ [create_pid w] ∧
  execCommand cfg w payload os
  = (None, Some (NonZeroExitError (secretBackendCommand cfg))) ∧
  NonZeroExitError (secretBackendCommand cfg)
  ≠ TimeoutError (secretBackendCommand cfg).
Proof.
  intros Hl Hd Hwait Hcode.
  destruct (execCommand_body_run cfg w payload os Hl)
    as (r0 & r1 & r2 & os' & E & _ & _ & Hk).
  unfold execCommand. rewrite E. unfold verdict.
  rewrite Hd in *. rewrite Hwait. apply N.eqb_neq in Hcode. rewrite Hcode.
  split_and!; [done|done|apply NonZeroExit_not_Timeout].
Qed.

Lemma deadline_kill_reported_as_exit_failure_witness :
  kill_calls (execCommand_body sample_config hung_world "{}" idle).2 = [42%N] ∧
  execCommand sample_config hung_world "{}" idle
  = (None, Some (NonZeroExitError "C:\Program Files\secret.exe")).
Proof.
  assert (Hl : launches sample_config hung_world) by by apply launches_sample.
  pose proof (deadline_kill_reported_as_exit_failure sample_config hung_world
                "{}" idle 1 Hl eq_refl eq_refl) as (Hk & Hr & _); [done|].
  split; [exact Hk|exact Hr].
Defined.

Section Failures.
#[local] Set Warnings "-clear-no-such-hyp".
#[local] Arguments closeFileList : simpl never.
Variable cfg : Config.
Variable w : World.

(** Collect, for every handle the run made, that it was not open when it
    was made. *)
Ltac fresh_facts :=
  repeat match goal with
  | |- context [fresh_handle ?o] =>
      lazymatch goal with
      | _ : fresh_handle o ∉ open_files o |- _ => fail
      | _ => pose proof (fresh_handle_closed o)
      end
  end.

(** The failure path of [startProcess] (lines 251-255) closes both
    lists: a run that fails at the credential lookup leaves no handle
    open and calls the primitive never. *)
Lemma execCommand_body_no_credential payload os e :
  reaches_credential cfg w →
  (getPasswordFromRegistry w).2 = Some e →
  let r := (execCommand_body cfg w payload os).1 in
  let os' := (execCommand_body cfg w payload os).2 in
  ret_bytes r = None ∧ ret_err r = Some e ∧
  create_calls os' = create_calls os ∧ open_files os' = open_files os.
Proof.
  intros [Hp0 Hp1 Hp2 Hc Hl Hd0 Hd1 Hd2] Hpw.
  unfold execCommand_body, new_Buffer, setInputPipe, setOutputPipe, os_Pipe.
  unfold mbind, M_bind, mret, M_ret.
  simpl. rewrite Hp0. simpl. rewrite Hp1. simpl. rewrite Hp2. simpl.
  match goal with |- context [startProcess w ?c ?a ?attr ?o] =>
    pose proof (startProcess_no_password w c a attr o e Hc Hl) as Hno;
    pose proof (startProcess_keeps w c a attr o) as (Ho & _);
    destruct (startProcess w c a attr o) as [r os1] end.
  destruct Hno as [Hr Hcalls];
    [by intros [|[|[|j]]] ?; [..|simpl in *; lia]|done|].
  simpl in Hr, Hcalls, Ho. subst r.
  rewrite !closeFileList_spec. simpl.
  split_and!; [done|done|done|].
  rewrite Ho. fresh_facts. simpl in *. set_solver.
Qed.

(** Once the three pipes exist, either the child is started (and
    [execCommand] goes on as [supervise]) or [startProcess] failed, for
    whatever reason, and every handle of the pipes is closed again. *)
Lemma execCommand_body_start_failure_closes payload os :
  pipe_fault w 0 = None → pipe_fault w 1 = None → pipe_fault w 2 = None →
  (∃ rl stdout process os1,
     execCommand_body cfg w payload os = supervise cfg w rl stdout process os1)
  ∨ (∃ e, (execCommand_body cfg w payload os).1 = fail e ∧
          open_files (execCommand_body cfg w payload os).2 = open_files os).
Proof.
  intros Hp0 Hp1 Hp2.
  unfold execCommand_body, new_Buffer, setInputPipe, setOutputPipe, os_Pipe.
  unfold mbind, M_bind, mret, M_ret.
  simpl. rewrite Hp0. simpl. rewrite Hp1. simpl. rewrite Hp2. simpl.
  match goal with |- context [startProcess w ?c ?a ?attr ?o] =>
    pose proof (startProcess_keeps w c a attr o) as (Ho & _);
    destruct (startProcess w c a attr o) as [[process|e] os1] end.
  - left. by do 4 eexists.
  - right. exists e. rewrite !closeFileList_spec. simpl. split; [done|].
    simpl in Ho. rewrite Ho. fresh_facts. simpl in *. set_solver.
Qed.

(** C3, as the code has it: when the pipe for stdin was made and the
    pipe for stdout cannot be, [execCommand] returns the error at once
    (line 233) and both ends of the stdin pipe stay open: the open files
    afterwards are strictly more than before.  No process was created. *)
Theorem pipe_failure_leaks_handles payload os e :
  pipe_fault w 0 = None → pipe_fault w 1 = Some e →
  let r := (execCommand_body cfg w payload os).1 in
  let os' := (execCommand_body cfg w payload os).2 in
  r = fail (Errorf w "failed to create pipe: " e "") ∧
  create_calls os' = create_calls os ∧
  open_files os ⊂ open_files os'.
Proof.
  intros Hp0 Hp1.
  unfold execCommand_body, new_Buffer, setInputPipe, setOutputPipe, os_Pipe.
  unfold mbind, M_bind, mret, M_ret.
  simpl. rewrite Hp0. simpl. rewrite Hp1. simpl.
  split_and!; [done|done|]. fresh_facts. simpl in *. set_solver.
Qed.

End Failures.

Lemma pipe_failure_leaks_handles_witness :
  open_files (execCommand_body sample_config starved_world "{}" idle).2
  = {[1%N; 2%N]} ∧
  open_files idle
  ⊂ open_files (execCommand_body sample_config starved_world "{}" idle).2.
Proof.
  split; [by vm_compute|].
  refine (proj2 (proj2 (pipe_failure_leaks_handles sample_config starved_world
                          "{}" idle (Errno 4) _ _))); reflexivity.
Defined.






(** C4.  A bounded buffer never holds more than its bound: a write to a
    buffer within its bound leaves it within its bound, and so does a
    whole copy; a copy into an empty buffer of reads that amount to at
    least the bound leaves exactly the first [max] bytes of them. *)
Theorem limitBuffer_bounded cfg dst reads ending os d :
  buffers os !! lb_buf dst = Some d → len d ≤ lb_max dst →
  (∀ p, len (contents (limitBuffer_Write cfg dst p os).2 dst) ≤ lb_max dst) ∧
  let os' := (io_Copy cfg dst reads ending os).2 in
  len (contents os' dst) ≤ lb_max dst ∧
  (d = "" → lb_max dst ≤ len (joined reads) →
   contents os' dst = first_bytes (lb_max dst) (joined reads) ∧
   len (contents os' dst) = lb_max dst).
Proof.
  intros Hd Hlen. split.
  - intros p. rewrite limitBuffer_Write_state. unfold contents. simpl.
    rewrite list_lookup_alter_eq, Hd. simpl.
    rewrite len_app, len_first_bytes. lia.
  - simpl. rewrite io_Copy_state. unfold contents. simpl.
    rewrite list_lookup_alter_eq, Hd. simpl. split.
    + by apply len_fill.
    + intros -> Hlong. rewrite fill_empty, len_first_bytes. split; [done|lia].
Qed.

Lemma limitBuffer_bounded_witness :
  let dst := {| lb_buf := 0; lb_max := 8 |} in
  let os := set_buffers (fun _ => [""]) idle in
  contents (io_Copy sample_config dst ["hello"; " world"; "!"] None os).2 dst
  = "hello wo".
Proof.
  intros dst os.
  pose proof (limitBuffer_bounded sample_config dst ["hello"; " world"; "!"]
                None os "" eq_refl) as (_ & _ & H); [simpl; lia|].
  destruct (H eq_refl) as [-> _]; [simpl; lia|reflexivity].
Defined.

(** C10.  The command line handed to the process-creation primitive is
    the command path as it is, with no escaping or quoting, followed by
    the escaped arguments, each after a single space; the application
    name is the command path too. *)
Theorem command_path_verbatim w argv0 argv attr os call :
  create_calls (startProcess w argv0 argv attr os).2
  = create_calls os ++ [call] →
  makeCmdLine argv0 argv = argv0 +:+ escaped_args argv ∧
  lpApplicationName call = argv0 ∧
  lpCommandLine call = argv0 +:+ escaped_args argv.
Proof.
  intros Hcalls. split; [apply makeCmdLine_escaped_args|].
  destruct (startProcess_calls w argv0 argv attr os)
    as [Hnone | (call' & Hone & Happ & Hline & _)].
  - rewrite Hnone in Hcalls. apply (f_equal length) in Hcalls.
    rewrite length_app in Hcalls. simpl in Hcalls. lia.
  - rewrite Hone in Hcalls. apply app_inj_tail in Hcalls as [_ ->].
    by rewrite <-makeCmdLine_escaped_args.
Qed.

Lemma command_path_verbatim_witness :
  lpCommandLine sample_call
  = "C:\Program Files\secret.exe" +:+ escaped_args ["--payload"; "a b"].
Proof.
  refine (proj2 (proj2 (command_path_verbatim quiet_world
            "C:\Program Files\secret.exe" ["--payload"; "a b"]
            {| Files := [7%N; 8%N; 9%N] |} idle sample_call _))).
  by vm_compute.
Defined.

(** * Further properties of the code *)

(** ** The command line *)

Section CommandLineMore.
Implicit Types s t : string.

Lemma str_app_inv_head s : ∀ t u, s +:+ t = s +:+ u → t = u.
Proof.
  induction s as [|c s IH]; intros t u H; [done|].
  rewrite !app_cons in H. injection H as H. by apply IH.
Qed.

Lemma contains_app c s t : contains c (s +:+ t) = contains c s || contains c t.
Proof.
  induction s as [|d s IH]; [done|].
  rewrite app_cons. simpl. rewrite IH. by rewrite orb_assoc.
Qed.

Lemma contains_bs_rep c n :
  Char.eq c Char.backslash = false → contains c (bs_rep n) = false.
Proof.
  intros Hc. induction n as [|n IH]; [done|]. cbn [bs_rep contains].
  rewrite IH. unfold Char.eq in *. rewrite Ascii.eqb_sym. by rewrite Hc.
Qed.

Lemma contains_escape_body c s : ∀ k h,
  Char.eq c Char.dquote = false → Char.eq c Char.backslash = false →
  contains c (escape_body s k h) = contains c s.
Proof.
  assert (Hsym : ∀ a b, Char.eq a b = Char.eq b a)
    by (intros; apply Ascii.eqb_sym).
  induction s as [|d s IH]; intros k h Hq Hb; cbn [escape_body contains].
  - destruct h; [|done]. rewrite contains_app, contains_bs_rep by done.
    cbn [str1 contains]. by rewrite Hsym, Hq.
  - destruct (Char.eq d Char.backslash) eqn:Ed.
    + cbn [contains]. by rewrite IH.
    + destruct (Char.eq d Char.dquote) eqn:Eq'.
      * rewrite contains_app, contains_bs_rep by done. cbn [contains].
        rewrite IH by done. apply eq_true in Eq' as ->.
        by rewrite !(Hsym _ c), Hq, Hb.
      * cbn [contains]. by rewrite IH.
Qed.

Lemma contains_EscapeArg c s :
  Char.eq c Char.dquote = false → Char.eq c Char.backslash = false →
  contains c (EscapeArg s) = contains c s.
Proof.
  assert (Hsym : ∀ a b, Char.eq a b = Char.eq b a)
    by (intros; apply Ascii.eqb_sym).
  intros Hq Hb. rewrite EscapeArg_unfold. destruct s as [|d s].
  - cbn [str1 contains]. by rewrite Hsym, Hq.
  - destruct (has_blank (String d s)).
    + cbn [contains]. rewrite contains_escape_body by done.
      cbn [contains]. by rewrite (Hsym _ c), Hq.
    + by rewrite contains_escape_body.
Qed.

Lemma contains_nul_escaped_args args :
  contains Char.nul (escaped_args args) = existsb (contains Char.nul) args.
Proof.
  induction args as [|a args IH]; [done|].
  rewrite escaped_args_cons. cbn [contains existsb].
  rewrite contains_app, contains_EscapeArg, IH by done. done.
Qed.

Lemma len_bs_rep n : len (bs_rep n) = n.
Proof.
  induction n as [|n IH]; [done|]. cbn [bs_rep String.length]. by rewrite IH.
Qed.

Lemma len_escape_body_le s : ∀ k h,
  len (escape_body s k h) ≤ len s + specials s + k + (if h then 1 else 0).
Proof.
  induction s as [|c s IH]; intros k h; cbn [escape_body specials String.length].
  - destruct h; [|cbn; lia]. rewrite len_app, len_bs_rep. cbn. lia.
  - destruct (Char.eq c Char.backslash) eqn:Eb.
    + rewrite orb_true_r. cbn [String.length]. specialize (IH (S k) h).
      clear Eb. destruct h; lia.
    + destruct (Char.eq c Char.dquote) eqn:Eq'; cbn [orb]; clear Eb Eq'.
      * rewrite len_app, len_bs_rep. cbn [String.length].
        specialize (IH 0 h). destruct h; lia.
      * cbn [String.length]. specialize (IH 0 h). destruct h; lia.
Qed.

Lemma len_escape_body_ge s : ∀ k (h : bool),
  len s + (if contains Char.dquote s then 1 else 0) + (if h then 1 else 0)
  ≤ len (escape_body s k h).
Proof.
  induction s as [|c s IH]; intros k h; cbn [escape_body contains String.length].
  - destruct h; [|done]. rewrite len_app, len_bs_rep. cbn. lia.
  - destruct (Char.eq c Char.backslash) eqn:Eb.
    + assert (Char.eq c Char.dquote = false) as ->.
      { apply eq_true in Eb as ->. done. }
      cbn [orb String.length]. specialize (IH (S k) h). clear Eb. lia.
    + destruct (Char.eq c Char.dquote) eqn:Eq'; cbn [orb]; clear Eb Eq'.
      * rewrite len_app, len_bs_rep. cbn [String.length].
        specialize (IH 0 h). destruct (contains Char.dquote s), h; lia.
      * cbn [String.length]. specialize (IH 0 h). lia.
Qed.

End CommandLineMore.

(** X1. [EscapeArg] returns its argument unchanged exactly when the
    argument is not empty and holds no blank and no double quote. *)
Theorem EscapeArg_unchanged_iff (s : string) :
  EscapeArg s = s ↔
  s ≠ "" ∧ has_blank s = false ∧ contains Char.dquote s = false.
Proof.
  rewrite EscapeArg_unfold. split.
  - intros H. destruct s as [|c s]; [done|]. split; [done|].
    destruct (has_blank (String c s)) eqn:Hb.
    + apply (f_equal len) in H. cbn [String.length] in H.
      pose proof (len_escape_body_ge (String c s) 0 true) as Hge.
      cbn [String.length] in *. lia.
    + split; [done|].
      destruct (contains Char.dquote (String c s)) eqn:Hq; [|done].
      apply (f_equal len) in H.
      pose proof (len_escape_body_ge (String c s) 0 false) as Hge.
      rewrite Hq in Hge. lia.
  - intros (Hne & Hb & Hq). destruct s as [|c s]; [done|].
    rewrite Hb. by apply escape_body_plain.
Qed.

(** X2. The escaped argument is never shorter than the argument and
    always fits the buffer [qs] that the first loop of [EscapeArg] sizes:
    [len(s)] plus one byte for every double quote and backslash, plus two
    when a blank asks for the surrounding quotes. *)
Theorem EscapeArg_fits_buffer (s : string) :
  len s ≤ len (EscapeArg s) ∧
  len (EscapeArg s)
  ≤ match s with
    | "" => 2
    | _ => let '(n, hasSpace) := escape_scan s (len s) false in
           if hasSpace then n + 2 else n
    end.
Proof.
  rewrite EscapeArg_unfold, escape_scan_spec. destruct s as [|c s].
  - simpl. lia.
  - cbn [orb]. destruct (has_blank (String c s)).
    + pose proof (len_escape_body_ge (String c s) 0 true).
      pose proof (len_escape_body_le (String c s) 0 true).
      cbn [String.length] in *. lia.
    + pose proof (len_escape_body_ge (String c s) 0 false).
      pose proof (len_escape_body_le (String c s) 0 false).
      cbn [String.length] in *. lia.
Qed.

(** X3. Two argument lists that give the same command line are equal. *)
Theorem makeCmdLine_injective (cmd : string) (args args' : list string) :
  makeCmdLine cmd args = makeCmdLine cmd args' → args = args'.
Proof.
  rewrite !makeCmdLine_escaped_args. intros H%str_app_inv_head.
  apply (f_equal commandLineToArgv) in H.
  rewrite !commandLineToArgv_escaped_args in H. by injection H.
Qed.

Lemma makeCmdLine_injective_witness :
  ["a b"; ""] = ["a b"; ""].
Proof.
  exact (makeCmdLine_injective "cmd.exe" ["a b"; ""] ["a b"; ""] eq_refl).
Defined.

(** X4. [makeCmdLine] holds a NUL byte exactly when the command or
    one of the arguments does. *)
Theorem makeCmdLine_nul (cmd : string) (args : list string) :
  contains Char.nul (makeCmdLine cmd args)
  = contains Char.nul cmd || existsb (contains Char.nul) args.
Proof.
  by rewrite makeCmdLine_escaped_args, contains_app, contains_nul_escaped_args.
Qed.

(** ** The benign errors of the stdin relay *)

(** X5. [skipStdinCopyError] accepts exactly the errors of a write to the
    file named ["|1"] that failed with [ERROR_BROKEN_PIPE] or
    [ERROR_NO_DATA]; in particular not a nil error, not a read error and
    not an error on another path. *)
Theorem skipStdinCopyError_iff (err : option error) :
  skipStdinCopyError err = true ↔
  ∃ code, err = Some (PathError "write" "|1" (Errno code)) ∧
          (code = ERROR_BROKEN_PIPE ∨ code = ERROR_NO_DATA).
Proof.
  split.
  - destruct err as [[| |op path e|]|]; try done. cbn [skipStdinCopyError].
    intros [[Hop%String.eqb_eq Hpath%String.eqb_eq]%andb_true_iff He]%andb_true_iff.
    subst op path. destruct e as [code| | |]; try done.
    exists code. split; [done|]. cbn [is_errno] in He.
    apply orb_true_iff in He as [He%N.eqb_eq|He%N.eqb_eq]; auto.
  - intros (code & -> & [->| ->]); reflexivity.
Qed.

(** ** The credential source *)

Section Registry.
Variable w : World.

Lemma getPasswordFromRegistry_cases :
  match getPasswordFromRegistry w with
  | (pw, None) =>
      registry_fault w = None ∧ credential_entry w = Some (REG_SZ pw)
  | (pw, Some e) =>
      pw = "" ∧
      (registry_fault w ≠ None ∨ ∀ p, credential_entry w ≠ Some (REG_SZ p)) ∧
      (e = CredentialNotFound ∨ CredentialReadError w e)
  end.
Proof.
  unfold getPasswordFromRegistry, OpenKey, credential_entry, GetStringValue.
  destruct (registry_fault w) as [e|] eqn:Hf.
  - destruct (is_errno e ERROR_FILE_NOT_FOUND).
    + split_and!; [done|by left|by left].
    + split_and!; [done|by left|]. right. apply key_unreadable.
  - destruct (registry_store w !! passwordRegistryPath) as [k|]; cbn.
    + destruct (k !! username) as [[pw|t]|]; [done|..].
      * split_and!; [done|by right|]. right. apply value_unreadable.
      * split_and!; [done|by right|]. right. apply value_unreadable.
    + split_and!; [done|by right|by left].
Qed.


(** X7. Every error of [getPasswordFromRegistry] is the not-found error or
    one of the two read errors. *)
Theorem getPasswordFromRegistry_error_classes (e : error) :
  (getPasswordFromRegistry w).2 = Some e →
  e = CredentialNotFound ∨ CredentialReadError w e.
Proof.
  pose proof getPasswordFromRegistry_cases as H.
  destruct (getPasswordFromRegistry w) as [pw [e'|]]; cbn; [|done].
  intros [= <-]. by destruct H as (_ & _ & ?).
Qed.

(** X8. The not-found error is returned exactly when opening the key
    reports [ERROR_FILE_NOT_FOUND]: the key is absent, or the registry
    access itself failed with that code.  An absent value under an
    existing key is not reported that way. *)
Theorem getPasswordFromRegistry_not_found_iff :
  (getPasswordFromRegistry w).2 = Some CredentialNotFound ↔
  registry_fault w = Some (Errno ERROR_FILE_NOT_FOUND) ∨
  (registry_fault w = None ∧ registry_store w !! passwordRegistryPath = None).
Proof.
  unfold getPasswordFromRegistry, OpenKey, GetStringValue, CredentialNotFound,
    Errorf.
  destruct (registry_fault w) as [e|] eqn:Hf.
  - destruct e as [code| | |]; cbn [is_errno].
    + destruct (N.eqb_spec code ERROR_FILE_NOT_FOUND) as [->|Hne]; cbn.
      * split; [by left|done].
      * split; [done|]. intros [[= ?]|[? _]]; done.
    + split; [done|]. intros [?|[? _]]; done.
    + split; [done|]. intros [?|[? _]]; done.
    + split; [done|]. intros [?|[? _]]; done.
  - destruct (registry_store w !! passwordRegistryPath) as [k|]; cbn.
    + destruct (k !! username) as [[pw|t]|]; cbn;
        (split; [done|]; intros [?|[_ ?]]; done).
    + split; [by right|done].
Qed.


End Registry.

Lemma getPasswordFromRegistry_error_classes_witness :
  Errorf locked_world "can't read secrets user password from registry: "
    (Errno 5) "" = CredentialNotFound ∨
  CredentialReadError locked_world
    (Errorf locked_world "can't read secrets user password from registry: "
       (Errno 5) "").
Proof.
  exact (getPasswordFromRegistry_error_classes locked_world _ eq_refl).
Defined.


(** ** The pipe relay *)

Section Relays.
#[local] Set Warnings "-clear-no-such-hyp".
Variable cfg : Config.
Variable w : World.

Lemma fresh_handle_not_dup os : fresh_handle os ∉ dup_handles os.
Proof.
  unfold fresh_handle.
  pose proof (is_fresh ({[0%N]} ∪ open_files os ∪ dup_handles os)).
  set_solver.
Qed.

Lemma fresh_handle_nonzero os : fresh_handle os ≠ 0%N.
Proof.
  unfold fresh_handle.
  pose proof (is_fresh ({[0%N]} ∪ open_files os ∪ dup_handles os)).
  set_solver.
Qed.

(** What [os.Pipe] gives when it succeeds: two new handles. *)
Lemma os_Pipe_ok i os :
  pipe_fault w i = None →
  ∃ pr pw os',
    os_Pipe w i os = (Ok (pr, pw), os') ∧
    Name pr = "|0" ∧ Name pw = "|1" ∧
    Fd pr ≠ Fd pw ∧ Fd pr ≠ 0%N ∧ Fd pw ≠ 0%N ∧
    (Fd pr ∉ open_files os) ∧ (Fd pw ∉ open_files os) ∧
    open_files os' = {[Fd pr; Fd pw]} ∪ open_files os ∧
    dup_handles os' = dup_handles os ∧ buffers os' = buffers os ∧
    create_calls os' = create_calls os ∧ kill_calls os' = kill_calls os.
Proof.
  intros Hp. unfold os_Pipe. rewrite Hp. do 3 eexists. split; [reflexivity|].
  cbn [Fd Name].
  set (os1 := set_open_files (union {[fresh_handle os]}) os).
  pose proof (fresh_handle_closed os). pose proof (fresh_handle_nonzero os).
  pose proof (fresh_handle_closed os1). pose proof (fresh_handle_nonzero os1).
  split_and!; try done.
  - subst os1. cbn in *. set_solver.
  - subst os1. cbn in *. set_solver.
  - subst os1. cbn in *. set_solver.
Qed.

(** X10. When the pipe can be made, [setInputPipe] makes two new handles,
    schedules the copy of the payload into the write end, hands the read
    end to the list closed once the child has started and keeps the write
    end in the list closed after the wait. *)
Theorem setInputPipe_roles r rl os :
  pipe_fault w (length (closeAfterStart rl)) = None →
  ∃ pr pw os',
    setInputPipe w r rl os
    = (({| goroutine := goroutine rl ++ [stdin_task w pw r];
           closeAfterStart := closeAfterStart rl ++ [pr];
           closeAfterWait := closeAfterWait rl ++ [pw] |}, None), os') ∧
    Name pr = "|0" ∧ Name pw = "|1" ∧
    Fd pr ≠ Fd pw ∧ Fd pr ≠ 0%N ∧ Fd pw ≠ 0%N ∧
    (Fd pr ∉ open_files os) ∧ (Fd pw ∉ open_files os) ∧
    open_files os' = {[Fd pr; Fd pw]} ∪ open_files os.
Proof.
  intros Hp.
  destruct (os_Pipe_ok _ os Hp)
    as (pr & pw & os' & E & ? & ? & ? & ? & ? & ? & ? & ? & _).
  exists pr, pw, os'. split_and!; try done.
  unfold setInputPipe, mbind, M_bind, mret, M_ret. by rewrite E.
Qed.

(** X11. [setOutputPipe] does the same with the ends exchanged: the copy
    reads from the read end, which stays until after the wait, and the
    write end goes to the child. *)
Theorem setOutputPipe_roles dst rl os :
  pipe_fault w (length (closeAfterStart rl)) = None →
  ∃ pr pw os',
    setOutputPipe cfg w dst rl os
    = (({| goroutine :=
             goroutine rl
             ++ [output_task cfg w (length (closeAfterStart rl)) dst pr];
           closeAfterStart := closeAfterStart rl ++ [pw];
           closeAfterWait := closeAfterWait rl ++ [pr] |}, None), os') ∧
    Name pr = "|0" ∧ Name pw = "|1" ∧
    Fd pr ≠ Fd pw ∧ Fd pr ≠ 0%N ∧ Fd pw ≠ 0%N ∧
    (Fd pr ∉ open_files os) ∧ (Fd pw ∉ open_files os) ∧
    open_files os' = {[Fd pr; Fd pw]} ∪ open_files os.
Proof.
  intros Hp.
  destruct (os_Pipe_ok _ os Hp)
    as (pr & pw & os' & E & ? & ? & ? & ? & ? & ? & ? & ? & _).
  exists pr, pw, os'. split_and!; try done.
  unfold setOutputPipe, mbind, M_bind, mret, M_ret. by rewrite E.
Qed.

(** X12. When the pipe cannot be made, both functions return the error
    wrapped in the same message and leave the three lists and the system
    as they were. *)
Theorem setPipe_failure r dst rl os e :
  pipe_fault w (length (closeAfterStart rl)) = Some e →
  setInputPipe w r rl os
  = ((rl, Some (errorString
                  ("failed to create pipe: " +:+ Error w e))), os) ∧
  setOutputPipe cfg w dst rl os
  = ((rl, Some (errorString
                  ("failed to create pipe: " +:+ Error w e))), os).
Proof.
  intros Hp.
  unfold setInputPipe, setOutputPipe, os_Pipe, mbind, M_bind, mret, M_ret,
    Errorf.
  by rewrite Hp, app_empty_r.
Qed.

(** X13. [closeFileList] closes every file of the list and no other,
    whatever the system answers to each [Close]; files that were closed
    already do no harm, so closing the list again changes nothing, and
    the order of the list does not matter. *)
Theorem closeFileList_closes fl os :
  let os' := (closeFileList w fl os).2 in
  open_files os' = open_files os ∖ list_to_set (Fd <$> fl) ∧
  dup_handles os' = dup_handles os ∧
  (closeFileList w fl os').2 = os' ∧
  ∀ fl', fl ≡ₚ fl' → closeFileList w fl' os = closeFileList w fl os.
Proof.
  cbn zeta. rewrite !closeFileList_spec. cbn [snd].
  split_and!; [done|done|..].
  - destruct os. unfold set_open_files. cbn. f_equal. set_solver.
  - intros fl' Hperm. rewrite closeFileList_spec. f_equal.
    destruct os. unfold set_open_files. cbn. f_equal.
    assert (list_to_set (Fd <$> fl') =@{gset N} list_to_set (Fd <$> fl));
      [|by f_equal].
    apply leibniz_equiv. intros h. rewrite !elem_of_list_to_set.
    by rewrite Hperm.
Qed.

End Relays.

Lemma setInputPipe_roles_witness :
  ∃ pr pw os',
    setInputPipe quiet_world "{}"
      no_relay idle
    = (({| goroutine := [stdin_task quiet_world pw "{}"];
           closeAfterStart := [pr]; closeAfterWait := [pw] |}, None), os') ∧
    Name pr = "|0" ∧ Name pw = "|1" ∧
    Fd pr ≠ Fd pw ∧ Fd pr ≠ 0%N ∧ Fd pw ≠ 0%N ∧
    (Fd pr ∉ open_files idle) ∧ (Fd pw ∉ open_files idle) ∧
    open_files os' = {[Fd pr; Fd pw]} ∪ open_files idle.
Proof.
  exact (setInputPipe_roles quiet_world "{}"
           no_relay
           idle eq_refl).
Defined.

Lemma setOutputPipe_roles_witness :
  ∃ pr pw os',
    setOutputPipe sample_config quiet_world {| lb_buf := 0; lb_max := 8 |}
      no_relay idle
    = (({| goroutine :=
             [output_task sample_config quiet_world 0
                {| lb_buf := 0; lb_max := 8 |} pr];
           closeAfterStart := [pw]; closeAfterWait := [pr] |}, None), os') ∧
    Name pr = "|0" ∧ Name pw = "|1" ∧
    Fd pr ≠ Fd pw ∧ Fd pr ≠ 0%N ∧ Fd pw ≠ 0%N ∧
    (Fd pr ∉ open_files idle) ∧ (Fd pw ∉ open_files idle) ∧
    open_files os' = {[Fd pr; Fd pw]} ∪ open_files idle.
Proof.
  exact (setOutputPipe_roles sample_config quiet_world
           {| lb_buf := 0; lb_max := 8 |}
           no_relay
           idle eq_refl).
Defined.

Lemma setPipe_failure_witness :
  setInputPipe starved_world "{}"
    {| goroutine := []; closeAfterStart := [{| Fd := 1; Name := "|0" |}];
       closeAfterWait := [{| Fd := 2; Name := "|1" |}] |} idle
  = (({| goroutine := []; closeAfterStart := [{| Fd := 1; Name := "|0" |}];
         closeAfterWait := [{| Fd := 2; Name := "|1" |}] |},
      Some (errorString "failed to create pipe: errno")), idle).
Proof.
  exact (proj1 (setPipe_failure sample_config starved_world "{}"
                  {| lb_buf := 0; lb_max := 8 |}
                  {| goroutine := [];
                     closeAfterStart := [{| Fd := 1; Name := "|0" |}];
                     closeAfterWait := [{| Fd := 2; Name := "|1" |}] |}
                  idle (Errno 4) eq_refl)).
Defined.

(** ** The results on [errch] *)

(** X14. Whatever the order in which the three tasks deliver, [copyError]
    stays nil exactly when every task returned nil, and otherwise is the
    error of one of the tasks. *)
Theorem copyError_of_tasks (a : Arrival) (rs : list (option error)) :
  length rs = 3 →
  (drain_errch (arrive a None rs) = None ↔ ∀ r, r ∈ rs → r = None) ∧
  ∀ e, drain_errch (arrive a None rs) = Some e → Some e ∈ rs.
Proof.
  intros Hlen. destruct rs as [|r0 [|r1 [|r2 [|]]]]; try done. clear Hlen.
  rewrite drain_errch_first_error.
  split.
  - split.
    + intros H r Hr.
      destruct a, r0, r1, r2; cbn in H; try done;
        repeat (apply elem_of_cons in Hr as [->|Hr]; [done|]);
        by apply elem_of_nil in Hr.
    + intros H.
      rewrite (H r0), (H r1), (H r2) by set_solver. by destruct a.
  - intros e H.
    destruct a, r0, r1, r2; cbn in H; try done; injection H as ->;
      set_solver.
Qed.

Lemma copyError_of_tasks_witness :
  Some EINVAL ∈ [None; Some EINVAL; None].
Proof.
  exact (proj2 (copyError_of_tasks A201 [None; Some EINVAL; None] eq_refl)
           EINVAL eq_refl).
Defined.

(** ** The process launcher

    [startProcess] reads [fd[0]], [fd[1]] and [fd[2]] (lines 158-160),
    so it is meant for at least three files; [execCommand] passes
    exactly three.  The statements about [startProcess] below carry that
    as a hypothesis. *)

Section Launcher.
#[local] Set Warnings "-clear-no-such-hyp".
Variable w : World.

Ltac run := unfold mbind, M_bind, mret, M_ret, gets, modify.

Lemma deferred_closes_spec fd os :
  deferred_closes fd os
  = (tt, set_dup_handles (fun s => s ∖ duplicated fd) os).
Proof.
  revert os. induction fd as [|h fd IH]; intros os.
  - cbn. f_equal. destruct os. unfold set_dup_handles, duplicated. cbn.
    f_equal. set_solver.
  - cbn [deferred_closes]. run. rewrite IH. unfold CloseHandle, modify.
    destruct (N.ltb_spec 0 h) as [Hpos|Hz].
    + assert (h ≠ 0%N) by lia. clear Hpos IH.
      destruct os. unfold set_dup_handles, duplicated. cbn. do 2 f_equal.
      set_solver.
    + assert (h = 0%N) as -> by lia.
      destruct os. unfold set_dup_handles, duplicated. cbn. do 2 f_equal.
      set_solver.
Qed.

Lemma duplicate_loop_dups files : ∀ i fd os base,
  dup_handles os = base ∪ duplicated fd → duplicated fd ## base →
  let res := duplicate_loop w files i fd os in
  dup_handles res.2 = base ∪ duplicated res.1.1 ∧
  duplicated res.1.1 ## base.
Proof.
  induction files as [|f files IH]; intros i fd os base Hd Hdisj; [done|].
  cbn [duplicate_loop]. destruct (0 <? f)%N.
  - run. unfold DuplicateHandle. destruct (dup_fault w i) as [e|]; [done|].
    apply IH.
    + cbn. rewrite Hd. unfold duplicated. rewrite list_to_set_app_L. cbn.
      pose proof (fresh_handle_nonzero os). set_solver.
    + pose proof (fresh_handle_not_dup os) as Hf. rewrite Hd in Hf.
      unfold duplicated in *. rewrite list_to_set_app_L. cbn. set_solver.
  - apply IH.
    + rewrite Hd. unfold duplicated. rewrite list_to_set_app_L. cbn.
      set_solver.
    + unfold duplicated in *. rewrite list_to_set_app_L. cbn. set_solver.
Qed.

Lemma create_process_dups argv0p argvp fd os :
  dup_handles (create_process w argv0p argvp fd os).2 = dup_handles os.
Proof.
  unfold create_process. destruct (getPasswordFromRegistry w) as [pw [e|]];
    [done|]. run. cbn.
  destruct (create_res w =? 0)%N; [done|]. by destruct (find_fault w).
Qed.

Lemma startProcess_dups argv0 argv attr os :
  dup_handles (startProcess w argv0 argv attr os).2 = dup_handles os.
Proof.
  unfold startProcess.
  destruct (UTF16PtrFromString argv0) as [argv0p|]; [|done].
  destruct (UTF16PtrFromString (makeCmdLine argv0 argv)) as [argvp|]; [|done].
  run.
  destruct (duplicate_loop_dups (Files attr) 0 [] os (dup_handles os))
    as [Hd Hdisj]; [unfold duplicated; set_solver..|].
  destruct (duplicate_loop w (Files attr) 0 [] os) as [[fd err] os1].
  cbn [fst snd] in Hd, Hdisj.
  assert (H2 : ∀ (m : M (result Process)),
    dup_handles (m os1).2 = dup_handles os1 →
    dup_handles
      (let '(r, os2) := m os1 in
       let '(_, os3) := deferred_closes fd os2 in (r, os3)).2
    = dup_handles os).
  { intros m Hm. destruct (m os1) as [r os2]. cbn [snd] in Hm.
    rewrite deferred_closes_spec. cbn. rewrite Hm, Hd. set_solver. }
  destruct err as [err|].
  - by apply (H2 (fun os => (Err err, os))).
  - apply (H2 (create_process w argv0p argvp fd)). apply create_process_dups.
Qed.

(** The failure of the loop over [attr.Files] at its first handle that
    cannot be duplicated. *)
Lemma duplicate_loop_fails files : ∀ i0 fd os i f e,
  files !! i = Some f → (0 < f)%N → dup_fault w (i0 + i) = Some e →
  (∀ j, j < i → dup_fault w (i0 + j) = None) →
  (duplicate_loop w files i0 fd os).1.2
  = Some (Errorf w
      "can't call DuplicateHandle to execute secretBackendCommand: "
      e (str1 Char.lf)).
Proof.
  induction files as [|f0 files IH]; intros i0 fd os i f e Hf Hpos He Hbefore;
    [done|].
  cbn [duplicate_loop]. destruct i as [|i].
  - injection Hf as ->. apply N.ltb_lt in Hpos. rewrite Hpos. run.
    unfold DuplicateHandle. rewrite Nat.add_0_r in He. by rewrite He.
  - cbn in Hf.
    assert (Hrest : ∀ fd' os',
      (duplicate_loop w files (S i0) fd' os').1.2
      = Some (Errorf w
          "can't call DuplicateHandle to execute secretBackendCommand: "
          e (str1 Char.lf))).
    { intros fd' os'. apply (IH (S i0) fd' os' i f e Hf Hpos).
      - by rewrite Nat.add_succ_comm.
      - intros j Hj. rewrite Nat.add_succ_comm. apply Hbefore. lia. }
    destruct (0 <? f0)%N; [|apply Hrest]. run. unfold DuplicateHandle.
    rewrite <-(Nat.add_0_r i0) at 1. rewrite Hbefore by lia. apply Hrest.
Qed.

(** The one call [create_process] may make, field by field. *)
Lemma create_process_call argv0p argvp fd os call :
  create_calls (create_process w argv0p argvp fd os).2
  = create_calls os ++ [call] →
  ∃ pw,
    getPasswordFromRegistry w = (pw, None) ∧
    call = {| lpUsername := username; lpDomain := ".";
              lpPassword := if contains Char.nul pw then "" else pw;
              lpApplicationName := argv0p; lpCommandLine := argvp;
              hStdInput := default 0%N (fd !! 0);
              hStdOutput := default 0%N (fd !! 1);
              hStdError := default 0%N (fd !! 2);
              call_res := create_res w |}.
Proof.
  unfold create_process, UTF16PtrFromString.
  destruct (getPasswordFromRegistry w) as [pw [e|]].
  - cbn. intros H. apply (f_equal length) in H. rewrite length_app in H.
    cbn in H. lia.
  - run. cbn. intros H. exists pw. split; [done|].
    assert (Hcalls : ∀ c, create_calls os ++ [c] = create_calls os ++ [call] →
                          call = c).
    { by intros c [_ ->]%app_inj_tail. }
    destruct (create_res w =? 0)%N; [|destruct (find_fault w)];
      cbn in H; apply Hcalls in H; rewrite H; by destruct (contains Char.nul pw).
Qed.

End Launcher.

Section LauncherFacts.
#[local] Set Warnings "-clear-no-such-hyp".
Variable w : World.

Ltac run := unfold mbind, M_bind, mret, M_ret, gets, modify.

(** A call made by [startProcess] is the call of [create_process] on the
    handles the loop duplicated. *)
Lemma startProcess_call argv0 argv attr os call :
  create_calls (startProcess w argv0 argv attr os).2
  = create_calls os ++ [call] →
  contains Char.nul argv0 = false ∧
  contains Char.nul (makeCmdLine argv0 argv) = false ∧
  ∃ fd os1,
    duplicate_loop w (Files attr) 0 [] os = ((fd, None), os1) ∧
    create_calls (create_process w argv0 (makeCmdLine argv0 argv) fd os1).2
    = create_calls os1 ++ [call] ∧
    (startProcess w argv0 argv attr os).1
    = (create_process w argv0 (makeCmdLine argv0 argv) fd os1).1.
Proof.
  assert (Hno : ∀ l : list CreateCall, l ≠ l ++ [call]).
  { intros l H. apply (f_equal length) in H. rewrite length_app in H.
    cbn in H. lia. }
  unfold startProcess, UTF16PtrFromString.
  destruct (contains Char.nul argv0); [by intros ?%Hno|].
  destruct (contains Char.nul (makeCmdLine argv0 argv)); [by intros ?%Hno|].
  run. pose proof (duplicate_loop_keeps w (Files attr) 0 [] os) as [_ Hc].
  destruct (duplicate_loop w (Files attr) 0 [] os) as [[fd err] os1].
  cbn [snd] in Hc. destruct err as [err|].
  - rewrite deferred_closes_spec. cbn. rewrite Hc. by intros ?%Hno.
  - destruct (create_process w argv0 (makeCmdLine argv0 argv) fd os1)
      as [r os2] eqn:E.
    rewrite deferred_closes_spec. cbn. intros H. split; [done|split; [done|]].
    exists fd, os1. rewrite E. cbn. by rewrite Hc.
Qed.

Lemma duplicate_loop_three f0 f1 f2 os fd os1 :
  (0 < f0)%N → (0 < f1)%N → (0 < f2)%N →
  duplicate_loop w [f0; f1; f2] 0 [] os = ((fd, None), os1) →
  ∃ h0 h1 h2,
    fd = [h0; h1; h2] ∧ NoDup [h0; h1; h2] ∧
    ∀ h, h ∈ [h0; h1; h2] →
      h ≠ 0%N ∧ (h ∉ open_files os) ∧ (h ∉ dup_handles os).
Proof.
  intros H0%N.ltb_lt H1%N.ltb_lt H2%N.ltb_lt.
  cbn [duplicate_loop]. rewrite H0, H1, H2. run. unfold DuplicateHandle.
  destruct (dup_fault w 0); [done|]. destruct (dup_fault w 1); [done|].
  destruct (dup_fault w 2); [done|]. cbn. intros [= <- <-].
  set (os0 := set_dup_handles (union {[fresh_handle os]}) os).
  set (os' := set_dup_handles (union {[fresh_handle os0]}) os0).
  pose proof (fresh_handle_nonzero os). pose proof (fresh_handle_nonzero os0).
  pose proof (fresh_handle_nonzero os').
  pose proof (fresh_handle_closed os). pose proof (fresh_handle_closed os0).
  pose proof (fresh_handle_closed os').
  pose proof (fresh_handle_not_dup os). pose proof (fresh_handle_not_dup os0).
  pose proof (fresh_handle_not_dup os').
  do 3 eexists. split; [reflexivity|].
  subst os' os0. cbn in *. split.
  - repeat constructor; set_solver.
  - intros h Hh. set_solver.
Qed.

(** X15. Whatever happens, [startProcess] leaves the files, the buffers and
    the duplicated handles as it found them: every handle it duplicates
    is closed again when it returns.  It calls the process-creation
    primitive at most once. *)
Theorem startProcess_only_creates argv0 argv attr os :
  3 ≤ length (Files attr) →
  let os' := (startProcess w argv0 argv attr os).2 in
  open_files os' = open_files os ∧ dup_handles os' = dup_handles os ∧
  buffers os' = buffers os ∧ kill_calls os' = kill_calls os ∧
  (create_calls os' = create_calls os ∨
   ∃ call, create_calls os' = create_calls os ++ [call]).
Proof.
  intros _. cbn zeta.
  destruct (startProcess_keeps w argv0 argv attr os) as (Ho & Hb & Hk).
  split_and!; [done|apply startProcess_dups|done|done|].
  destruct (startProcess_calls w argv0 argv attr os) as [?|(call & ? & _)];
    [by left|right; by exists call].
Qed.

(** A NUL byte in the command or in an argument stops [startProcess]
    at the conversion to UTF-16, before any handle is duplicated, the
    registry read or a process created; the message tells which of the
    two conversions failed. *)
Lemma startProcess_nul argv0 argv attr os :
  contains Char.nul argv0 || existsb (contains Char.nul) argv = true →
  startProcess w argv0 argv attr os
  = (Err (errorString
       (if contains Char.nul argv0
        then "can't convert command string to UTF16: invalid argument"
        else "can't convert cmdline string to UTF16: invalid argument")),
     os).
Proof.
  intros H. unfold startProcess, UTF16PtrFromString.
  destruct (contains Char.nul argv0) eqn:H0; [done|].
  rewrite makeCmdLine_escaped_args, contains_app, H0,
    contains_nul_escaped_args.
  cbn [orb] in *. by rewrite H.
Qed.

(** When a standard handle cannot be duplicated, [startProcess]
    returns the error of [DuplicateHandle] in its message and creates no
    process. *)
Lemma startProcess_dup_failure argv0 argv attr os i f e :
  contains Char.nul argv0 || existsb (contains Char.nul) argv = false →
  Files attr !! i = Some f → (0 < f)%N →
  dup_fault w i = Some e → (∀ j, j < i → dup_fault w j = None) →
  (startProcess w argv0 argv attr os).1
  = Err (errorString
      ("can't call DuplicateHandle to execute secretBackendCommand: "
       +:+ Error w e +:+ str1 Char.lf)) ∧
  create_calls (startProcess w argv0 argv attr os).2 = create_calls os.
Proof.
  intros [H0 Hargs]%orb_false_iff Hf Hpos He Hbefore.
  unfold startProcess, UTF16PtrFromString.
  rewrite makeCmdLine_escaped_args, contains_app, H0,
    contains_nul_escaped_args, Hargs.
  cbn [orb]. run.
  pose proof (duplicate_loop_fails w (Files attr) 0 [] os i f e Hf Hpos He
                Hbefore) as Hfail.
  pose proof (duplicate_loop_keeps w (Files attr) 0 [] os) as [_ Hc].
  destruct (duplicate_loop w (Files attr) 0 [] os) as [[fd err] os1].
  cbn [fst snd] in Hfail, Hc. subst err.
  rewrite deferred_closes_spec. by cbn.
Qed.

(** X16. The process is created under the fixed account: the user name of
    the call is the name the password is stored under, the domain is
    the local account database, and the password is the string read from
    the registry. *)
Theorem startProcess_account argv0 argv attr os call :
  3 ≤ length (Files attr) →
  create_calls (startProcess w argv0 argv attr os).2
  = create_calls os ++ [call] →
  lpUsername call = username ∧ lpDomain call = "." ∧
  ∃ pw, registry_fault w = None ∧ credential_entry w = Some (REG_SZ pw) ∧
        (contains Char.nul pw = false → lpPassword call = pw).
Proof.
  intros _ (_ & _ & fd & os1 & _ & Hcall & _)%startProcess_call.
  apply create_process_call in Hcall as (pw & Hpw & ->).
  split_and!; [done|done|]. exists pw.
  pose proof (getPasswordFromRegistry_cases w) as H. rewrite Hpw in H.
  destruct H as [? ?]. split_and!; [done|done|]. cbn. by intros ->.
Qed.

(** X17. The child is given duplicates, not the handles of [attr.Files]:
    the three standard handles of the call are distinct new handles, and
    none of them is left open in this process when [startProcess]
    returns. *)
Theorem startProcess_child_handles argv0 argv f0 f1 f2 os call :
  (0 < f0)%N → (0 < f1)%N → (0 < f2)%N →
  let os' := (startProcess w argv0 argv {| Files := [f0; f1; f2] |} os).2 in
  create_calls os' = create_calls os ++ [call] →
  NoDup [hStdInput call; hStdOutput call; hStdError call] ∧
  ∀ h, h ∈ [hStdInput call; hStdOutput call; hStdError call] →
    h ≠ 0%N ∧ (h ∉ open_files os) ∧ (h ∉ dup_handles os) ∧
    (h ∉ open_files os') ∧ (h ∉ dup_handles os').
Proof.
  intros H0 H1 H2 os' Hcalls.
  pose proof (startProcess_keeps w argv0 argv {| Files := [f0; f1; f2] |} os)
    as (Ho & _).
  pose proof (startProcess_dups w argv0 argv {| Files := [f0; f1; f2] |} os)
    as Hd.
  fold os' in Ho, Hd. rewrite Ho, Hd.
  apply startProcess_call in Hcalls as (_ & _ & fd & os1 & Hloop & Hcall & _).
  apply create_process_call in Hcall as (pw & _ & ->).
  cbn [Files] in Hloop.
  apply duplicate_loop_three in Hloop as (h0 & h1 & h2 & -> & Hnd & Hnew);
    [|done..].
  cbn. split; [done|]. intros h Hh. by destruct (Hnew h Hh) as (? & ? & ?).
Qed.

Lemma create_process_returns argv0p argvp fd os p :
  (create_process w argv0p argvp fd os).1 = Ok p →
  p = {| Pid := create_pid w |} ∧ create_res w ≠ 0%N ∧ find_fault w = None ∧
  ∃ call,
    create_calls (create_process w argv0p argvp fd os).2
    = create_calls os ++ [call] ∧ call_res call = create_res w.
Proof.
  unfold create_process. destruct (getPasswordFromRegistry w) as [pw [e|]];
    [done|].
  run. cbn. destruct (N.eqb_spec (create_res w) 0) as [Hz|Hnz]; [done|].
  destruct (find_fault w) as [e|]; cbn; [done|].
  intros [= <-]. split_and!; [done..|]. by eexists.
Qed.

(** What [startProcess] has done when it returns a process. *)
Lemma startProcess_returns argv0 argv attr os p :
  (startProcess w argv0 argv attr os).1 = Ok p →
  p = {| Pid := create_pid w |} ∧ create_res w ≠ 0%N ∧ find_fault w = None ∧
  ∃ call,
    create_calls (startProcess w argv0 argv attr os).2
    = create_calls os ++ [call] ∧ call_res call = create_res w.
Proof.
  unfold startProcess, UTF16PtrFromString.
  destruct (contains Char.nul argv0); [done|].
  destruct (contains Char.nul (makeCmdLine argv0 argv)); [done|]. run.
  pose proof (duplicate_loop_keeps w (Files attr) 0 [] os) as [_ Hc].
  destruct (duplicate_loop w (Files attr) 0 [] os) as [[fd err] os1].
  cbn [snd] in Hc. destruct err as [err|].
  { rewrite deferred_closes_spec. by cbn. }
  pose proof (create_process_returns argv0 (makeCmdLine argv0 argv) fd os1 p)
    as H.
  destruct (create_process w argv0 (makeCmdLine argv0 argv) fd os1)
    as [r os2].
  rewrite deferred_closes_spec. cbn in *. rewrite <-Hc. exact H.
Qed.

(** X18. [startProcess] returns a process only when the primitive
    reported success and the process was found; it then is the process
    the primitive created. *)
Theorem startProcess_returns_created argv0 argv attr os p :
  3 ≤ length (Files attr) →
  (startProcess w argv0 argv attr os).1 = Ok p →
  p = {| Pid := create_pid w |} ∧ create_res w ≠ 0%N ∧ find_fault w = None ∧
  ∃ call,
    create_calls (startProcess w argv0 argv attr os).2
    = create_calls os ++ [call] ∧ call_res call = create_res w.
Proof. intros _. apply startProcess_returns. Qed.

End LauncherFacts.

Lemma startProcess_only_creates_witness :
  let os' := (startProcess quiet_world "C:\Program Files\secret.exe"
                ["--payload"; "a b"] {| Files := [7%N; 8%N; 9%N] |} idle).2 in
  open_files os' = open_files idle ∧ dup_handles os' = dup_handles idle ∧
  buffers os' = buffers idle ∧ kill_calls os' = kill_calls idle ∧
  (create_calls os' = create_calls idle ∨
   ∃ call, create_calls os' = create_calls idle ++ [call]).
Proof.
  exact (startProcess_only_creates quiet_world "C:\Program Files\secret.exe"
           ["--payload"; "a b"] {| Files := [7%N; 8%N; 9%N] |} idle (le_n 3)).
Defined.

Lemma startProcess_account_witness :
  lpUsername sample_call = username ∧ lpDomain sample_call = "." ∧
  ∃ pw, registry_fault quiet_world = None ∧
        credential_entry quiet_world = Some (REG_SZ pw) ∧
        (contains Char.nul pw = false → lpPassword sample_call = pw).
Proof.
  refine (startProcess_account quiet_world "C:\Program Files\secret.exe"
            ["--payload"; "a b"] {| Files := [7%N; 8%N; 9%N] |} idle
            sample_call (le_n 3) _).
  by vm_compute.
Defined.

Lemma startProcess_child_handles_witness :
  NoDup [hStdInput sample_call; hStdOutput sample_call;
         hStdError sample_call] ∧
  ∀ h, h ∈ [hStdInput sample_call; hStdOutput sample_call;
            hStdError sample_call] →
    h ≠ 0%N ∧ (h ∉ open_files idle) ∧ (h ∉ dup_handles idle) ∧
    (h ∉ open_files
           (startProcess quiet_world "C:\Program Files\secret.exe"
              ["--payload"; "a b"] {| Files := [7%N; 8%N; 9%N] |} idle).2) ∧
    (h ∉ dup_handles
           (startProcess quiet_world "C:\Program Files\secret.exe"
              ["--payload"; "a b"] {| Files := [7%N; 8%N; 9%N] |} idle).2).
Proof.
  refine (startProcess_child_handles quiet_world
            "C:\Program Files\secret.exe" ["--payload"; "a b"] 7 8 9 idle
            sample_call _ _ _ _).
  - reflexivity.
  - reflexivity.
  - reflexivity.
  - by vm_compute.
Defined.

Lemma startProcess_returns_created_witness :
  {| Pid := 42 |} = {| Pid := create_pid quiet_world |} ∧
  create_res quiet_world ≠ 0%N ∧ find_fault quiet_world = None ∧
  ∃ call,
    create_calls
      (startProcess quiet_world "C:\Program Files\secret.exe"
         ["--payload"; "a b"] {| Files := [7%N; 8%N; 9%N] |} idle).2
    = create_calls idle ++ [call] ∧ call_res call = create_res quiet_world.
Proof.
  refine (startProcess_returns_created quiet_world
            "C:\Program Files\secret.exe" ["--payload"; "a b"]
            {| Files := [7%N; 8%N; 9%N] |} idle {| Pid := 42 |} (le_n 3) _).
  by vm_compute.
Defined.

(** ** The execution controller *)

Section Controller.
#[local] Set Warnings "-clear-no-such-hyp".
#[local] Arguments closeFileList : simpl never.
Variable cfg : Config.
Variable w : World.

Ltac run := unfold mbind, M_bind, mret, M_ret, gets, modify.

Ltac fresh_facts :=
  repeat match goal with
  | |- context [fresh_handle ?o] =>
      lazymatch goal with
      | _ : fresh_handle o ∉ open_files o |- _ => fail
      | _ => pose proof (fresh_handle_closed o);
             pose proof (fresh_handle_nonzero o)
      end
  end.

(** The state when [execCommand] calls [startProcess], and how it goes
    on from there. *)
Lemma execCommand_body_after_pipes payload os :
  pipe_fault w 0 = None → pipe_fault w 1 = None → pipe_fault w 2 = None →
  ∃ pr0 pw0 pr1 pw1 pr2 pw2 os0,
    let so := {| lb_buf := length (buffers os);
                 lb_max := secretBackendOutputMaxSize cfg |} in
    let se := {| lb_buf := S (length (buffers os));
                 lb_max := secretBackendOutputMaxSize cfg |} in
    let rl := {| goroutine := [stdin_task w pw0 payload;
                               output_task cfg w 1 so pr1;
                               output_task cfg w 2 se pr2];
                 closeAfterStart := [pr0; pw1; pw2];
                 closeAfterWait := [pw0; pr1; pr2] |} in
    let handles := [Fd pr0; Fd pw0; Fd pr1; Fd pw1; Fd pr2; Fd pw2] in
    execCommand_body cfg w payload os
    = (let '(started, os1) :=
         startProcess w (secretBackendCommand cfg)
           (secretBackendArguments cfg)
           {| Files := [Fd pr0; Fd pw1; Fd pw2] |} os0 in
       match started with
       | Err err =>
           (fail err,
            set_open_files (fun s => s ∖ list_to_set handles) os1)
       | Ok process => supervise cfg w rl so process os1
       end) ∧
    open_files os0 = list_to_set handles ∪ open_files os ∧
    (∀ h, h ∈ handles → h ≠ 0%N ∧ h ∉ open_files os) ∧
    dup_handles os0 = dup_handles os ∧
    buffers os0 = buffers os ++ [""; ""] ∧
    create_calls os0 = create_calls os ∧ kill_calls os0 = kill_calls os.
Proof.
  intros Hp0 Hp1 Hp2.
  unfold execCommand_body, new_Buffer, setInputPipe, setOutputPipe, os_Pipe.
  run. simpl. rewrite Hp0. simpl. rewrite Hp1. simpl. rewrite Hp2. simpl.
  rewrite length_app, Nat.add_1_r. simpl length.
  match goal with
  | |- context [supervise cfg w
         {| goroutine := _; closeAfterStart := [?f0; ?f1; ?f2];
            closeAfterWait := [?g0; ?g1; ?g2] |}] =>
      match goal with
      | |- context [startProcess w _ _ _ ?o] =>
          exists f0, g0, g1, f1, g2, f2, o
      end
  end.
  cbn [Fd]. split_and!.
  - match goal with |- context [startProcess w ?c ?a ?attr ?o] =>
      destruct (startProcess w c a attr o) as [[process|e] os1] end;
      [done|].
    rewrite !closeFileList_spec. cbn. f_equal. clear.
    repeat match goal with |- context [fresh_handle ?o] =>
      generalize (fresh_handle o); intros ? end.
    clear. destruct os1. unfold set_open_files. cbn. f_equal. set_solver.
  - cbn. set_solver.
  - fresh_facts. clear Hp0 Hp1 Hp2. intros h Hh. cbn in *. set_solver.
  - done.
  - cbn. by rewrite <-List.app_assoc.
  - done.
  - done.
Qed.

(** What the three tasks leave of the state. *)
Lemma run_tasks_three_state pw pr1 pr2 payload so se os :
  let os' := (run_tasks [stdin_task w pw payload; output_task cfg w 1 so pr1;
                         output_task cfg w 2 se pr2] os).2 in
  open_files os' = open_files os ∖ {[Fd pw; Fd pr1; Fd pr2]} ∧
  dup_handles os' = dup_handles os.
Proof.
  simpl run_tasks. run.
  pose proof (stdin_task_state w pw payload os) as E0.
  destruct (stdin_task w pw payload os) as [r0 os0]. simpl in E0.
  pose proof (output_task_state cfg w 1 so pr1 os0) as E1.
  destruct (output_task cfg w 1 so pr1 os0) as [r1 os1]. simpl in E1.
  pose proof (output_task_state cfg w 2 se pr2 os1) as E2.
  destruct (output_task cfg w 2 se pr2 os1) as [r2 os2]. simpl in E2.
  subst. cbn. split; [|done]. set_solver.
Qed.

(** [supervise] on the relays of [execCommand]: the verdict, and a state
    in which the six pipe handles are closed. *)
Lemma supervise_state pr0 pw0 pr1 pw1 pr2 pw2 payload so se process os1 :
  let rl := {| goroutine := [stdin_task w pw0 payload;
                             output_task cfg w 1 so pr1;
                             output_task cfg w 2 se pr2];
               closeAfterStart := [pr0; pw1; pw2];
               closeAfterWait := [pw0; pr1; pr2] |} in
  let res := supervise cfg w rl so process os1 in
  (∃ r0 r1 r2,
     res.1 = verdict cfg w (arrive (arrival w) None [r0; r1; r2])
               (contents res.2 so)) ∧
  open_files res.2
  = open_files os1
    ∖ list_to_set [Fd pr0; Fd pw0; Fd pr1; Fd pw1; Fd pr2; Fd pw2] ∧
  dup_handles res.2 = dup_handles os1 ∧
  create_calls res.2 = create_calls os1 ∧
  kill_calls res.2
  = if deadline_before_exit w then kill_calls os1 ++ [Pid process]
    else kill_calls os1.
Proof.
  cbn zeta. rewrite supervise_spec.
  cbn [goroutine closeAfterStart closeAfterWait].
  match goal with |- context [run_tasks ?ts ?o] =>
    destruct (run_tasks_three cfg w pw0 pr1 pr2 payload so se o)
      as (r0 & r1 & r2 & os2 & E & _ & Hk & Hc);
    pose proof (run_tasks_three_state pw0 pr1 pr2 payload so se o)
      as [Ho Hd];
    rewrite E in Ho, Hd |- * end.
  cbn [fst snd] in *. split_and!.
  - by exists r0, r1, r2.
  - cbn. rewrite Ho. unfold watched.
    destruct (deadline_before_exit w); cbn; set_solver.
  - cbn. rewrite Hd. unfold watched. by destruct (deadline_before_exit w).
  - cbn. rewrite Hc. unfold watched. by destruct (deadline_before_exit w).
  - cbn. rewrite Hk, kill_calls_watched. done.
Qed.

(** Every run in which the three pipes were made: the handles are closed
    again at the end, and the run either failed in [startProcess] or went
    through [supervise]. *)
Lemma closed_again (handles : list N) (before : gset N) :
  (∀ h, h ∈ handles → h ≠ 0%N ∧ h ∉ before) →
  (list_to_set handles ∪ before) ∖ list_to_set handles = before.
Proof.
  intros Hnew. apply set_eq. intros h.
  rewrite elem_of_difference, elem_of_union, elem_of_list_to_set. split.
  - by intros [[?|?] ?].
  - intros Hh. split; [by right|]. by intros [_ ?]%Hnew.
Qed.

Lemma execCommand_body_started payload os :
  pipe_fault w 0 = None → pipe_fault w 1 = None → pipe_fault w 2 = None →
  let r := (execCommand_body cfg w payload os).1 in
  let os' := (execCommand_body cfg w payload os).2 in
  let so := {| lb_buf := length (buffers os);
               lb_max := secretBackendOutputMaxSize cfg |} in
  open_files os' = open_files os ∧ dup_handles os' = dup_handles os ∧
  ((∃ e, r = fail e ∧ kill_calls os' = kill_calls os ∧
         (create_calls os' = create_calls os ∨
          ∃ call, create_calls os' = create_calls os ++ [call] ∧
                  configured cfg w call))
   ∨ (∃ r0 r1 r2 call,
        r = verdict cfg w (arrive (arrival w) None [r0; r1; r2])
              (contents os' so) ∧
        create_calls os' = create_calls os ++ [call] ∧ configured cfg w call ∧
        create_res w ≠ 0%N ∧
        kill_calls os'
        = if deadline_before_exit w then kill_calls os ++ [create_pid w]
          else kill_calls os)).
Proof.
  intros Hp0 Hp1 Hp2.
  destruct (execCommand_body_after_pipes payload os Hp0 Hp1 Hp2)
    as (pr0 & pw0 & pr1 & pw1 & pr2 & pw2 & os0 & E & Ho0 & Hnew & Hd0 & _
        & Hc0 & Hk0).
  cbn zeta in *. rewrite E. clear E.
  match goal with |- context [startProcess w ?c ?a ?attr ?o] =>
    pose proof (startProcess_keeps w c a attr o) as (Ho & _ & Hk);
    pose proof (startProcess_dups w c a attr o) as Hd;
    pose proof (startProcess_calls w c a attr o) as Hcalls;
    pose proof (startProcess_returns w c a attr o) as Hok;
    destruct (startProcess w c a attr o) as [[process|e] os1] end;
    cbn [fst snd] in *.
  - destruct (Hok process eq_refl) as (-> & Hres & _ & call & Hcall & Hr).
    match goal with |- context [supervise cfg w ?rl ?so ?p ?o] =>
      pose proof (supervise_state pr0 pw0 pr1 pw1 pr2 pw2 payload so
                    {| lb_buf := S (length (buffers os));
                       lb_max := secretBackendOutputMaxSize cfg |} p o)
        as ((r0 & r1 & r2 & Hv) & Ho2 & Hd2 & Hc2 & Hk2);
      cbn zeta in *;
      destruct (supervise cfg w rl so p o) as [r os2] end.
    cbn [fst snd Pid] in *. split_and!.
    + rewrite Ho2, Ho, Ho0. by apply closed_again.
    + by rewrite Hd2, Hd.
    + right. exists r0, r1, r2, call. rewrite Hc2, Hk2, Hk, Hk0, Hcall, Hc0.
      split_and!; try done.
      destruct Hcalls as [Hn|(call' & Hone & ? & ? & ?)].
      * rewrite Hn in Hcall. apply (f_equal length) in Hcall.
        rewrite length_app in Hcall. cbn in Hcall. lia.
      * rewrite Hone in Hcall. by apply app_inj_tail in Hcall as [_ ->].
  - cbn. split_and!.
    + rewrite Ho, Ho0. by apply closed_again.
    + by rewrite Hd.
    + left. exists e. rewrite Hk, Hk0, <-Hc0. split_and!; [done|done|].
      destruct Hcalls as [?|(call & ? & ? & ? & ?)]; [by left|].
      right. by exists call.
Qed.

(** The runs in which a pipe could not be made. *)
Lemma execCommand_body_pipe_failure payload os e :
  pipe_fault w 0 = Some e ∨
  (pipe_fault w 0 = None ∧ pipe_fault w 1 = Some e) ∨
  (pipe_fault w 0 = None ∧ pipe_fault w 1 = None ∧ pipe_fault w 2 = Some e) →
  let r := (execCommand_body cfg w payload os).1 in
  let os' := (execCommand_body cfg w payload os).2 in
  r = fail (errorString ("failed to create pipe: " +:+ Error w e)) ∧
  create_calls os' = create_calls os ∧ kill_calls os' = kill_calls os ∧
  dup_handles os' = dup_handles os ∧ open_files os ⊆ open_files os' ∧
  (pipe_fault w 0 = Some e → open_files os' = open_files os).
Proof.
  unfold execCommand_body, new_Buffer, setInputPipe, setOutputPipe, os_Pipe,
    Errorf.
  run.
  intros [Hp0|[[Hp0 Hp1]|(Hp0 & Hp1 & Hp2)]]; simpl; rewrite Hp0; simpl.
  - by rewrite app_empty_r.
  - rewrite Hp1. simpl. rewrite app_empty_r.
    split_and!; [done..| |done]. clear. set_solver.
  - rewrite Hp1. simpl. rewrite Hp2. simpl. rewrite app_empty_r.
    split_and!; [done..| |done]. clear. set_solver.
Qed.

End Controller.

Section ControllerFacts.
#[local] Set Warnings "-clear-no-such-hyp".
Variable cfg : Config.
Variable w : World.

Ltac run := unfold mbind, M_bind, mret, M_ret, gets, modify.

(** When [startProcess] fails, [execCommand] returns its error as it is. *)
Lemma execCommand_body_start_error payload os :
  pipe_fault w 0 = None → pipe_fault w 1 = None → pipe_fault w 2 = None →
  ∃ f0 f1 f2 os0,
    (0 < f0)%N ∧ (0 < f1)%N ∧ (0 < f2)%N ∧
    create_calls os0 = create_calls os ∧
    ∀ e,
      (startProcess w (secretBackendCommand cfg)
         (secretBackendArguments cfg) {| Files := [f0; f1; f2] |} os0).1
      = Err e →
      (execCommand_body cfg w payload os).1 = fail e ∧
      create_calls (execCommand_body cfg w payload os).2
      = create_calls
          (startProcess w (secretBackendCommand cfg)
             (secretBackendArguments cfg) {| Files := [f0; f1; f2] |} os0).2.
Proof.
  intros Hp0 Hp1 Hp2.
  destruct (execCommand_body_after_pipes cfg w payload os Hp0 Hp1 Hp2)
    as (pr0 & pw0 & pr1 & pw1 & pr2 & pw2 & os0 & E & _ & Hnew & _ & _
        & Hc0 & _).
  cbn zeta in *. exists (Fd pr0), (Fd pw1), (Fd pw2), os0.
  assert (Hpos : ∀ h, h ∈ [Fd pr0; Fd pw0; Fd pr1; Fd pw1; Fd pr2; Fd pw2] →
                      (0 < h)%N).
  { intros h [? _]%Hnew. lia. }
  split_and!; [apply Hpos; set_solver..|done|].
  intros e He. rewrite E. 
  destruct (startProcess w _ _ _ os0) as [r os1].
  cbn in He. by subst r.
Qed.

Lemma startProcess_create_failure argv0 argv attr os :
  contains Char.nul argv0 = false →
  contains Char.nul (makeCmdLine argv0 argv) = false →
  (∀ j, j < length (Files attr) → dup_fault w j = None) →
  (getPasswordFromRegistry w).2 = None → create_res w = 0%N →
  (startProcess w argv0 argv attr os).1
  = Err (errorString ("error from CreateProcessWithLogonW: "
                      +:+ Error w (create_err w) +:+ str1 Char.lf)) ∧
  ∃ call,
    create_calls (startProcess w argv0 argv attr os).2
    = create_calls os ++ [call] ∧ call_res call = 0%N.
Proof.
  intros H0 Hl Hdup Hpw Hres.
  unfold startProcess, UTF16PtrFromString. rewrite H0, Hl. run.
  pose proof (duplicate_loop_ok w (Files attr) 0 [] os Hdup) as Herr.
  pose proof (duplicate_loop_keeps w (Files attr) 0 [] os) as [_ Hc].
  destruct (duplicate_loop w (Files attr) 0 [] os) as [[fd err] os1].
  cbn [fst snd] in Herr, Hc. subst err.
  unfold create_process. destruct (getPasswordFromRegistry w) as [pw err].
  cbn in Hpw. subst err. run. rewrite Hres. cbn.
  rewrite deferred_closes_spec. cbn. split; [done|]. eexists.
  rewrite Hc. by split.
Qed.

Lemma startProcess_find_failure argv0 argv attr os e :
  contains Char.nul argv0 = false →
  contains Char.nul (makeCmdLine argv0 argv) = false →
  (∀ j, j < length (Files attr) → dup_fault w j = None) →
  (getPasswordFromRegistry w).2 = None → create_res w ≠ 0%N →
  find_fault w = Some e →
  (startProcess w argv0 argv attr os).1
  = Err (errorString ("error finding backend process: "
                      +:+ Error w e +:+ str1 Char.lf)) ∧
  ∃ call,
    create_calls (startProcess w argv0 argv attr os).2
    = create_calls os ++ [call] ∧ call_res call ≠ 0%N.
Proof.
  intros H0 Hl Hdup Hpw Hres Hfind.
  unfold startProcess, UTF16PtrFromString. rewrite H0, Hl. run.
  pose proof (duplicate_loop_ok w (Files attr) 0 [] os Hdup) as Herr.
  pose proof (duplicate_loop_keeps w (Files attr) 0 [] os) as [_ Hc].
  destruct (duplicate_loop w (Files attr) 0 [] os) as [[fd err] os1].
  cbn [fst snd] in Herr, Hc. subst err.
  unfold create_process. destruct (getPasswordFromRegistry w) as [pw err].
  cbn in Hpw. subst err. run.
  destruct (N.eqb_spec (create_res w) 0) as [?|_]; [done|].
  rewrite Hfind. cbn. rewrite deferred_closes_spec. cbn. split; [done|].
  eexists. rewrite Hc. by split.
Qed.

Lemma fail_not_verdict e a rs bytes :
  fail e ≠ verdict cfg w (arrive a None rs) bytes.
Proof.
  intros H. apply (f_equal (λ r, length (received r))) in H.
  unfold verdict in H.
  destruct (wait_result w _) as [code|?]; [destruct (code =? 0)%N|];
    cbn in H; by rewrite length_arrive in H.
Qed.

Lemma dups_of_three (P : nat → Prop) :
  P 0 → P 1 → P 2 → ∀ j, j < 3 → P j.
Proof. intros ? ? ? [|[|[|j]]] ?; [done..|lia]. Qed.

Lemma spawned_app os os' call :
  create_calls os' = create_calls os ++ [call] →
  spawned os'
  = spawned os ++ (if decide (call_res call = 0%N) then [] else [call]).
Proof.
  intros H. unfold spawned. rewrite H, filter_app. f_equal.
  rewrite filter_cons, filter_nil. by destruct (decide (call_res call = 0%N));
    destruct (decide (call_res call ≠ 0%N)).
Qed.

(** X19. Once the three pipes exist, [execCommand] returns with the open
    files and the duplicated handles it found: every handle it made is
    closed again, whether the child ran, failed to start or was killed. *)
Theorem execCommand_no_leak payload os :
  pipe_fault w 0 = None → pipe_fault w 1 = None → pipe_fault w 2 = None →
  open_files (execCommand_body cfg w payload os).2 = open_files os ∧
  dup_handles (execCommand_body cfg w payload os).2 = dup_handles os.
Proof.
  intros Hp0 Hp1 Hp2.
  by destruct (execCommand_body_started cfg w payload os Hp0 Hp1 Hp2)
    as (? & ? & _).
Qed.

(** X20. One call of [execCommand] creates at most one process, with the
    configured command, and calls [Kill] at most once: on the process it
    created, and only when the deadline fired while the child ran. *)
Theorem execCommand_one_process payload os :
  let os' := (execCommand_body cfg w payload os).2 in
  (create_calls os' = create_calls os ∨
   ∃ call, create_calls os' = create_calls os ++ [call] ∧
           configured cfg w call) ∧
  (kill_calls os' = kill_calls os ∨
   deadline_before_exit w = true ∧
   kill_calls os' = kill_calls os ++ [create_pid w] ∧
   ∃ call, create_calls os' = create_calls os ++ [call] ∧
           call_res call ≠ 0%N).
Proof.
  cbn zeta.
  destruct (pipe_fault w 0) as [e|] eqn:Hp0;
    [|destruct (pipe_fault w 1) as [e|] eqn:Hp1;
      [|destruct (pipe_fault w 2) as [e|] eqn:Hp2]].
  1-3: destruct (execCommand_body_pipe_failure cfg w payload os e)
         as (_ & Hc & Hk & _); [tauto|]; split; by left.
  destruct (execCommand_body_started cfg w payload os Hp0 Hp1 Hp2)
    as (_ & _ & [(e & _ & Hk & Hc)
                |(r0 & r1 & r2 & call & _ & Hc & Hconf & Hres & Hk)]).
  - split; [exact Hc|by left].
  - split; [right; by exists call|].
    destruct (deadline_before_exit w); [|by left].
    right. split_and!; [done|done|]. exists call. split; [done|].
    destruct Hconf as (_ & _ & ->). done.
Qed.


(** X22. Once the child runs, the wait, the deadline and the child's
    standard output decide the result, and nothing else does: a wait
    error gives the timeout error when the deadline has passed by the
    time it is looked at and the wait error otherwise, a failure status
    gives the exit error, and status 0 gives the first
    [secretBackendOutputMaxSize] bytes of the output. *)
Theorem execCommand_outcome payload os :
  launches cfg w →
  execCommand cfg w payload os
  = match wait_result w (deadline_before_exit w) with
    | WaitFailed cause =>
        (None,
         Some (errorString
           (if deadline_before_exit w || deadline_before_check w
            then "error while running '" +:+ secretBackendCommand cfg
                 +:+ "': command timeout"
            else "error while running '" +:+ secretBackendCommand cfg
                 +:+ "': " +:+ Error w cause)))
    | Exited code =>
        if (code =? 0)%N
        then (Some (first_bytes (secretBackendOutputMaxSize cfg)
                      (joined (stdout_reads w))), None)
        else (None,
              Some (errorString
                ("'" +:+ secretBackendCommand cfg
                 +:+ "' exited with failure status")))
    end.
Proof.
  intros Hl.
  destruct (execCommand_body_run cfg w payload os Hl)
    as (r0 & r1 & r2 & os' & E & Hout & _).
  unfold execCommand. rewrite E. unfold verdict. cbn [fst].
  destruct (wait_result w _) as [code|cause].
  - destruct (code =? 0)%N; cbn; [by rewrite Hout|done].
  - cbn. unfold deadline_exceeded.
    by destruct (deadline_before_exit w || deadline_before_check w).
Qed.

(** X23. What the child writes to its standard error, and how that stream
    ends, never changes what [execCommand] returns. *)
Theorem execCommand_ignores_stderr payload os reads ending :
  launches cfg w →
  execCommand cfg (with_stderr w reads ending) payload os
  = execCommand cfg w payload os.
Proof.
  intros Hl.
  assert (Hl' : launches cfg (with_stderr w reads ending)).
  { destruct Hl. by split. }
  destruct (execCommand_body_run cfg w payload os Hl)
    as (r0 & r1 & r2 & os1 & E & Hout & _).
  destruct (execCommand_body_run cfg _ payload os Hl')
    as (r0' & r1' & r2' & os1' & E' & Hout' & _).
  unfold execCommand. rewrite E, E'. cbn [fst]. rewrite Hout, Hout'.
  unfold verdict. cbn.
  destruct (wait_result w _) as [code|cause]; [|done].
  by destruct (code =? 0)%N.
Qed.

(** X24. A wait that fails for a reason of its own is reported as a
    timeout when the deadline passes before [execCommand] looks at it,
    although the child was never killed. *)
Theorem execCommand_late_deadline payload os cause :
  launches cfg w →
  deadline_before_exit w = false → deadline_before_check w = true →
  wait_result w false = WaitFailed cause →
  execCommand cfg w payload os
  = (None, Some (TimeoutError (secretBackendCommand cfg))) ∧
  kill_calls (execCommand_body cfg w payload os).2 = kill_calls os.
Proof.
  intros Hl Hd Hc Hw.
  destruct (execCommand_body_run cfg w payload os Hl)
    as (r0 & r1 & r2 & os' & E & _ & _ & Hk).
  unfold execCommand. rewrite E. unfold verdict, deadline_exceeded.
  rewrite Hd in Hk |- *. rewrite Hw, Hc. by cbn.
Qed.

(** X25. A NUL byte in the command or in an argument makes [execCommand]
    fail at the conversion to UTF-16: no process is created and the
    pipes are closed again. *)
Theorem execCommand_nul payload os :
  pipe_fault w 0 = None → pipe_fault w 1 = None → pipe_fault w 2 = None →
  contains Char.nul (secretBackendCommand cfg)
  || existsb (contains Char.nul) (secretBackendArguments cfg) = true →
  execCommand cfg w payload os
  = (None,
     Some (errorString
       (if contains Char.nul (secretBackendCommand cfg)
        then "can't convert command string to UTF16: invalid argument"
        else "can't convert cmdline string to UTF16: invalid argument"))) ∧
  create_calls (execCommand_body cfg w payload os).2 = create_calls os ∧
  open_files (execCommand_body cfg w payload os).2 = open_files os.
Proof.
  intros Hp0 Hp1 Hp2 Hnul.
  destruct (execCommand_body_start_error payload os Hp0 Hp1 Hp2)
    as (f0 & f1 & f2 & os0 & _ & _ & _ & Hc0 & Hfail).
  pose proof (startProcess_nul w _ _ {| Files := [f0; f1; f2] |} os0 Hnul)
    as Hsp.
  rewrite Hsp in Hfail. destruct (Hfail _ eq_refl) as [Hr Hc].
  destruct (execCommand_body_started cfg w payload os Hp0 Hp1 Hp2)
    as (Ho & _).
  unfold execCommand. rewrite Hr. cbn in Hc. by rewrite Hc, Hc0.
Qed.

(** X26. When one of the three handles cannot be duplicated,
    [execCommand] returns the error of [startProcess]; no process is
    created, and the pipes and the handles duplicated before are closed
    again. *)
Theorem execCommand_dup_failure payload os i e :
  pipe_fault w 0 = None → pipe_fault w 1 = None → pipe_fault w 2 = None →
  contains Char.nul (secretBackendCommand cfg)
  || existsb (contains Char.nul) (secretBackendArguments cfg) = false →
  i < 3 → dup_fault w i = Some e → (∀ j, j < i → dup_fault w j = None) →
  execCommand cfg w payload os
  = (None,
     Some (errorString
       ("can't call DuplicateHandle to execute secretBackendCommand: "
        +:+ Error w e +:+ str1 Char.lf))) ∧
  create_calls (execCommand_body cfg w payload os).2 = create_calls os ∧
  open_files (execCommand_body cfg w payload os).2 = open_files os ∧
  dup_handles (execCommand_body cfg w payload os).2 = dup_handles os.
Proof.
  intros Hp0 Hp1 Hp2 Hnul Hi He Hbefore.
  destruct (execCommand_body_start_error payload os Hp0 Hp1 Hp2)
    as (f0 & f1 & f2 & os0 & H0 & H1 & H2 & Hc0 & Hfail).
  assert (∃ f, [f0; f1; f2] !! i = Some f ∧ (0 < f)%N) as (f & Hf & Hpos).
  { destruct i as [|[|[|i]]]; [by eexists..|lia]. }
  destruct (startProcess_dup_failure w _ _ {| Files := [f0; f1; f2] |} os0
              i f e Hnul Hf Hpos He Hbefore)
    as [Hsp Hcalls].
  destruct (Hfail _ Hsp) as [Hr Hc].
  destruct (execCommand_body_started cfg w payload os Hp0 Hp1 Hp2)
    as (Ho & Hd & _).
  unfold execCommand. rewrite Hr. by rewrite Hc, Hcalls, Hc0.
Qed.

(** X27. Whatever keeps the password from being read, [execCommand]
    returns the error of [getPasswordFromRegistry] as it is; no process
    is created and the pipes are closed again. *)
Theorem execCommand_credential_failure payload os e :
  reaches_credential cfg w → (getPasswordFromRegistry w).2 = Some e →
  execCommand cfg w payload os = (None, Some e) ∧
  create_calls (execCommand_body cfg w payload os).2 = create_calls os ∧
  open_files (execCommand_body cfg w payload os).2 = open_files os.
Proof.
  intros Hreach Hpw.
  destruct (execCommand_body_no_credential cfg w payload os e Hreach Hpw)
    as (Hb & He & Hc & Ho).
  unfold execCommand. cbn zeta in *. by rewrite Hb, He.
Qed.

(** X28. When the primitive reports failure, [execCommand] returns an
    error that carries the system's; the call is on record, no process
    exists, and the pipes are closed again. *)
Theorem execCommand_create_failure payload os :
  reaches_credential cfg w → (getPasswordFromRegistry w).2 = None →
  create_res w = 0%N →
  let os' := (execCommand_body cfg w payload os).2 in
  execCommand cfg w payload os
  = (None,
     Some (errorString ("error from CreateProcessWithLogonW: "
                        +:+ Error w (create_err w) +:+ str1 Char.lf))) ∧
  (∃ call, create_calls os' = create_calls os ++ [call] ∧
           call_res call = 0%N) ∧
  spawned os' = spawned os ∧
  open_files os' = open_files os ∧ kill_calls os' = kill_calls os.
Proof.
  intros [Hp0 Hp1 Hp2 Hn Hl Hd0 Hd1 Hd2] Hpw Hres. cbn zeta.
  destruct (execCommand_body_start_error payload os Hp0 Hp1 Hp2)
    as (f0 & f1 & f2 & os0 & _ & _ & _ & Hc0 & Hfail).
  destruct (startProcess_create_failure _ _
              {| Files := [f0; f1; f2] |} os0 Hn Hl
              (dups_of_three _ Hd0 Hd1 Hd2) Hpw Hres)
    as (Hsp & call & Hcall & Hz).
  destruct (Hfail _ Hsp) as [Hr Hc].
  destruct (execCommand_body_started cfg w payload os Hp0 Hp1 Hp2)
    as (Ho & _ & [(e & _ & Hk & _)|(? & ? & ? & ? & Hv & _)]).
  - rewrite Hcall, Hc0 in Hc. unfold execCommand. rewrite Hr.
    split_and!; [done|by exists call| |done|done].
    rewrite (spawned_app _ _ _ Hc), Hz. cbn. by rewrite app_nil_r.
  - cbn zeta in Hv. rewrite Hr in Hv. by apply fail_not_verdict in Hv.
Qed.

(** X29. When the process was created but cannot be found afterwards,
    [execCommand] returns an error and closes the pipes, and the child
    it created is left behind: it is neither waited for nor killed. *)
Theorem execCommand_find_failure payload os e :
  reaches_credential cfg w → (getPasswordFromRegistry w).2 = None →
  create_res w ≠ 0%N → find_fault w = Some e →
  let os' := (execCommand_body cfg w payload os).2 in
  execCommand cfg w payload os
  = (None,
     Some (errorString ("error finding backend process: "
                        +:+ Error w e +:+ str1 Char.lf))) ∧
  (∃ call, spawned os' = spawned os ++ [call]) ∧
  open_files os' = open_files os ∧ kill_calls os' = kill_calls os.
Proof.
  intros [Hp0 Hp1 Hp2 Hn Hl Hd0 Hd1 Hd2] Hpw Hres Hfind. cbn zeta.
  destruct (execCommand_body_start_error payload os Hp0 Hp1 Hp2)
    as (f0 & f1 & f2 & os0 & _ & _ & _ & Hc0 & Hfail).
  destruct (startProcess_find_failure _ _
              {| Files := [f0; f1; f2] |} os0 e Hn Hl
              (dups_of_three _ Hd0 Hd1 Hd2) Hpw Hres Hfind)
    as (Hsp & call & Hcall & Hnz).
  destruct (Hfail _ Hsp) as [Hr Hc].
  destruct (execCommand_body_started cfg w payload os Hp0 Hp1 Hp2)
    as (Ho & _ & [(e' & _ & Hk & _)|(? & ? & ? & ? & Hv & _)]).
  - rewrite Hcall, Hc0 in Hc. unfold execCommand. rewrite Hr.
    split_and!; [done| |done|done]. exists call.
    rewrite (spawned_app _ _ _ Hc). by destruct (decide (call_res call = 0%N)).
  - cbn zeta in Hv. rewrite Hr in Hv. by apply fail_not_verdict in Hv.
Qed.

(** X30. When the first pipe cannot be made, [execCommand] returns the
    error and has touched nothing but its two buffers. *)
Theorem execCommand_first_pipe_failure payload os e :
  pipe_fault w 0 = Some e →
  let os' := (execCommand_body cfg w payload os).2 in
  execCommand cfg w payload os
  = (None, Some (errorString ("failed to create pipe: " +:+ Error w e))) ∧
  open_files os' = open_files os ∧ dup_handles os' = dup_handles os ∧
  create_calls os' = create_calls os ∧ kill_calls os' = kill_calls os.
Proof.
  intros Hp0. cbn zeta.
  destruct (execCommand_body_pipe_failure cfg w payload os e)
    as (Hr & Hc & Hk & Hd & _ & Ho); [by left|].
  cbn zeta in *. unfold execCommand. rewrite Hr. by rewrite Ho.
Qed.

End ControllerFacts.

Lemma launches_slow : launches sample_config slow_world.
Proof. by split. Qed.

Lemma reaches_credential_sample pipes store late waited fed out_end dup fault
    res found err_reads err_end :
  pipes 0 = None → pipes 1 = None → pipes 2 = None →
  dup 0 = None → dup 1 = None → dup 2 = None →
  reaches_credential sample_config
    (tweak_world (sample_world pipes store late waited fed out_end)
       dup fault res found err_reads err_end).
Proof. intros. by split. Qed.

Lemma execCommand_no_leak_witness :
  open_files (execCommand_body sample_config hung_world "{}" idle).2
  = open_files idle ∧
  dup_handles (execCommand_body sample_config hung_world "{}" idle).2
  = dup_handles idle.
Proof.
  exact (execCommand_no_leak sample_config hung_world "{}" idle
           eq_refl eq_refl eq_refl).
Defined.

Lemma execCommand_outcome_witness :
  execCommand sample_config crashed_world "{}" idle
  = (None,
     Some (errorString
       "error while running 'C:\Program Files\secret.exe': errno")).
Proof.
  refine (execCommand_outcome sample_config crashed_world "{}" idle _).
  by apply launches_sample.
Defined.

Lemma execCommand_ignores_stderr_witness :
  execCommand sample_config
    (with_stderr quiet_world ["panic: "; "boom"] (Some EINVAL)) "{}" idle
  = execCommand sample_config quiet_world "{}" idle.
Proof.
  refine (execCommand_ignores_stderr sample_config quiet_world "{}" idle
            ["panic: "; "boom"] (Some EINVAL) _).
  by apply launches_sample.
Defined.

Lemma execCommand_late_deadline_witness :
  execCommand sample_config slow_world "{}" idle
  = (None, Some (TimeoutError "C:\Program Files\secret.exe")) ∧
  kill_calls (execCommand_body sample_config slow_world "{}" idle).2
  = kill_calls idle.
Proof.
  exact (execCommand_late_deadline sample_config slow_world "{}" idle
           (Errno 6) launches_slow eq_refl eq_refl eq_refl).
Defined.

Lemma execCommand_nul_witness :
  execCommand nul_config quiet_world "{}" idle
  = (None,
     Some (errorString
       "can't convert cmdline string to UTF16: invalid argument")) ∧
  create_calls (execCommand_body nul_config quiet_world "{}" idle).2
  = create_calls idle ∧
  open_files (execCommand_body nul_config quiet_world "{}" idle).2
  = open_files idle.
Proof.
  exact (execCommand_nul nul_config quiet_world "{}" idle
           eq_refl eq_refl eq_refl eq_refl).
Defined.

Lemma execCommand_dup_failure_witness :
  execCommand sample_config clogged_world "{}" idle
  = (None,
     Some (errorString
       ("can't call DuplicateHandle to execute secretBackendCommand: errno"
        +:+ str1 Char.lf))) ∧
  create_calls (execCommand_body sample_config clogged_world "{}" idle).2
  = create_calls idle ∧
  open_files (execCommand_body sample_config clogged_world "{}" idle).2
  = open_files idle ∧
  dup_handles (execCommand_body sample_config clogged_world "{}" idle).2
  = dup_handles idle.
Proof.
  refine (execCommand_dup_failure sample_config clogged_world "{}" idle 1
            (Errno 6) eq_refl eq_refl eq_refl eq_refl _ eq_refl _).
  - lia.
  - intros [|j] Hj; [reflexivity|lia].
Defined.

Lemma execCommand_credential_failure_witness :
  execCommand sample_config locked_world "{}" idle
  = (None,
     Some (errorString
       "can't read secrets user password from registry: errno")) ∧
  create_calls (execCommand_body sample_config locked_world "{}" idle).2
  = create_calls idle ∧
  open_files (execCommand_body sample_config locked_world "{}" idle).2
  = open_files idle.
Proof.
  refine (execCommand_credential_failure sample_config locked_world "{}" idle
            _ _ eq_refl).
  by apply reaches_credential_sample.
Defined.

Lemma execCommand_create_failure_witness :
  let os' := (execCommand_body sample_config barred_world "{}" idle).2 in
  execCommand sample_config barred_world "{}" idle
  = (None,
     Some (errorString ("error from CreateProcessWithLogonW: errno"
                        +:+ str1 Char.lf))) ∧
  (∃ call, create_calls os' = create_calls idle ++ [call] ∧
           call_res call = 0%N) ∧
  spawned os' = spawned idle ∧
  open_files os' = open_files idle ∧ kill_calls os' = kill_calls idle.
Proof.
  refine (execCommand_create_failure sample_config barred_world "{}" idle
            _ eq_refl eq_refl).
  by apply reaches_credential_sample.
Defined.

Lemma execCommand_find_failure_witness :
  let os' := (execCommand_body sample_config orphan_world "{}" idle).2 in
  execCommand sample_config orphan_world "{}" idle
  = (None,
     Some (errorString ("error finding backend process: errno"
                        +:+ str1 Char.lf))) ∧
  (∃ call, spawned os' = spawned idle ++ [call]) ∧
  open_files os' = open_files idle ∧ kill_calls os' = kill_calls idle.
Proof.
  refine (execCommand_find_failure sample_config orphan_world "{}" idle
            (Errno 87) _ eq_refl _ eq_refl).
  - by apply reaches_credential_sample.
  - done.
Defined.

Lemma execCommand_first_pipe_failure_witness :
  let os' := (execCommand_body sample_config pipeless_world "{}" idle).2 in
  execCommand sample_config pipeless_world "{}" idle
  = (None, Some (errorString "failed to create pipe: errno")) ∧
  open_files os' = open_files idle ∧ dup_handles os' = dup_handles idle ∧
  create_calls os' = create_calls idle ∧ kill_calls os' = kill_calls idle.
Proof.
  exact (execCommand_first_pipe_failure sample_config pipeless_world "{}" idle
           (Errno 4) eq_refl).
Defined.
